(** * Little Man Computer: assembler and interpreter

    A shallow embedding of [little-man-computer.cpp]: the line tokenizer
    [split], the mnemonic recogniser [is_mnemonic], the two-pass assembler
    [parse] and the fetch-decode-execute loop [execute], followed by the
    properties of the specification checked against them.

    Conventions of the embedding.
    - [int] values are integers of [Z]; where the source can leave the
      range of a 32-bit [int] (the digit accumulation of pass 2, [atoi])
      the wrap-around is written out with [wrap32].
    - [short g_program[100]] is a [list Z] of 100 cells; every store goes
      through [to_short], the conversion to a 16-bit signed value.
    - [std::string] is [string]; the tokenizer scans the [c_str()] view of
      it, which ends at the first NUL character.
    - [std::map<std::string,int>] is a [gmap string Z];
      [std::map<int,std::string>] is an association list kept sorted by
      key, so that iteration visits the keys in ascending order.
    - [std::cerr] is a list of diagnostics, [std::cin] a list of integers
      and [std::cout] a list of printed integers.
    - The counters [errcount] and [line] are integers of [Z] without
      wrap-around: they grow by one per line of the source at most. *)

From Stdlib Require Import ZArith Ascii String Lia.
From stdpp Require Import gmap strings list.

Local Open Scope Z_scope.

(** ** Machine integers *)

Module MachineInt.

(** Two's complement reduction to [bits] bits. *)
Definition wrap (bits : Z) (x : Z) : Z :=
  let m := 2 ^ bits in
  let r := x mod m in
  if r <? 2 ^ (bits - 1) then r else r - m.

Definition wrap32 : Z -> Z := wrap 32.
Definition to_short : Z -> Z := wrap 16.

Definition INT_MAX : Z := 2147483647.

(** C++ [/] and [%] on [int] truncate towards zero. *)
Definition cdiv (a b : Z) : Z := Z.quot a b.
Definition cmod (a b : Z) : Z := Z.rem a b.

End MachineInt.
Export MachineInt.

(** ** Characters *)

Definition code (c : ascii) : N := N_of_ascii c.

Definition is_nul (c : ascii) : bool := (code c =? 0)%N.

(** [isspace] in the "C" locale: space, \t, \n, \v, \f, \r. *)
Definition isspace (c : ascii) : bool :=
  (code c =? 32)%N || ((9 <=? code c)%N && (code c <=? 13)%N).

(** [is_comment]: [c == '#' || c == '/' || c == ';']. *)
Definition is_comment (c : ascii) : bool :=
  (code c =? 35)%N || (code c =? 47)%N || (code c =? 59)%N.

Definition is_digit (c : ascii) : bool :=
  (48 <=? code c)%N && (code c <=? 57)%N.

Definition digit_val (c : ascii) : Z := Z.of_N (code c) - 48.

(** ** The line tokenizer *)

(** [input.c_str()]: the characters up to the first NUL. *)
Fixpoint c_str (s : list ascii) : list ascii :=
  match s with
  | [] => []
  | c :: s' => if is_nul c then [] else c :: c_str s'
  end.

(** First inner loop: advance [s] while it points at a whitespace
    character (the terminator is not one). *)
Fixpoint skip_space (s : list ascii) : list ascii :=
  match s with
  | [] => []
  | c :: s' => if isspace c then skip_space s' else s
  end.

(** Second inner loop: advance [s] while it points at a character that is
    neither the terminator, nor whitespace, nor a comment character;
    returns the characters passed over and the remaining ones. *)
Fixpoint scan_word (s : list ascii) : list ascii * list ascii :=
  match s with
  | [] => ([], [])
  | c :: s' =>
      if isspace c || is_comment c then ([], s)
      else let '(w, r) := scan_word s' in (c :: w, r)
  end.

(** The [for(;;)] loop of [split]; one unit of [fuel] per iteration. *)
Fixpoint split_loop (fuel : nat) (s : list ascii) (words : list string)
  : list string :=
  match fuel with
  | O => words
  | S fuel' =>
      match skip_space s with
      | [] => words
      | (c :: _) as s1 =>
          if is_comment c then words
          else
            let '(w, s2) := scan_word s1 in
            split_loop fuel' s2 (words ++ [string_of_list_ascii w])
      end
  end.

(** Every iteration that does not return consumes a character, so the
    length of the line bounds the number of iterations. *)
Definition split (input : string) : list string :=
  let s := c_str (list_ascii_of_string input) in
  split_loop (S (length s)) s [].

(** *** The tokenizer as the specification words it *)

Module TokenizerSpec.

(** The part of the line before the first comment character. *)
Fixpoint before_comment (s : list ascii) : list ascii :=
  match s with
  | [] => []
  | c :: s' => if is_comment c then [] else c :: before_comment s'
  end.

Definition flush (cur : list ascii) : list string :=
  match cur with
  | [] => []
  | _ => [string_of_list_ascii cur]
  end.

(** Maximal runs of non-whitespace characters, in order; [cur] is the
    run being read. *)
Fixpoint ws_words (s : list ascii) (cur : list ascii) : list string :=
  match s with
  | [] => flush cur
  | c :: s' =>
      if isspace c then flush cur ++ ws_words s' []
      else ws_words s' (cur ++ [c])
  end.

Definition tokens (input : string) : list string :=
  ws_words (before_comment (list_ascii_of_string input)) [].

Definition blank (input : string) : bool :=
  forallb isspace (list_ascii_of_string input).

(** The first non-whitespace character of the line is a comment
    character. *)
Definition starts_comment (input : string) : bool :=
  match skip_space (list_ascii_of_string input) with
  | c :: _ => is_comment c
  | [] => false
  end.

(** No NUL character in the line, as in a line of text. *)
Definition nul_free (input : string) : bool :=
  forallb (fun c => negb (is_nul c)) (list_ascii_of_string input).

End TokenizerSpec.

(** ** The mnemonic recogniser *)

Definition mnemonic_t := Z.

Definition MNEMONIC_NONE : mnemonic_t := -1.
Definition MNEMONIC_HLT : mnemonic_t := 0.
Definition MNEMONIC_ADD : mnemonic_t := 1.
Definition MNEMONIC_SUB : mnemonic_t := 2.
Definition MNEMONIC_STA : mnemonic_t := 3.
Definition MNEMONIC_LDA : mnemonic_t := 4.
Definition MNEMONIC_BRA : mnemonic_t := 5.
Definition MNEMONIC_BRZ : mnemonic_t := 6.
Definition MNEMONIC_BRP : mnemonic_t := 7.
Definition MNEMONIC_INP : mnemonic_t := 8.
Definition MNEMONIC_OUT : mnemonic_t := 9.
Definition MNEMONIC_DAT : mnemonic_t := 10.

(** [if(c >= 'a' && c <= 'z') w += c - 0x20; else w += c;] *)
Definition upper_char (c : ascii) : ascii :=
  if (97 <=? code c)%N && (code c <=? 122)%N
  then ascii_of_N (code c - 32)
  else c.

Fixpoint upper (word : string) : string :=
  match word with
  | EmptyString => EmptyString
  | String c w => String (upper_char c) (upper w)
  end.

Definition is_mnemonic (word : string) : mnemonic_t :=
  let w := upper word in
  if String.eqb w "HLT" then MNEMONIC_HLT
  else if String.eqb w "ADD" then MNEMONIC_ADD
  else if String.eqb w "SUB" then MNEMONIC_SUB
  else if String.eqb w "STA" then MNEMONIC_STA
  else if String.eqb w "LDA" then MNEMONIC_LDA
  else if String.eqb w "BRA" then MNEMONIC_BRA
  else if String.eqb w "BRZ" then MNEMONIC_BRZ
  else if String.eqb w "BRP" then MNEMONIC_BRP
  else if String.eqb w "INP" then MNEMONIC_INP
  else if String.eqb w "OUT" then MNEMONIC_OUT
  else if String.eqb w "DAT" then MNEMONIC_DAT
  else MNEMONIC_NONE.

(** ** Global state

    [g_pc] and [g_program] are globals of the program: the assembler fills
    them and the interpreter runs on them. *)

Record globals := Globals {
  g_pc : Z;
  g_program : list Z
}.

(** [short g_program[100] = {}] and [int g_pc = 0]. *)
Definition initial_globals : globals :=
  {| g_pc := 0; g_program := replicate 100 0 |}.

(** [std::size(g_program)] *)
Definition program_size : Z := 100.

(** [g_program[i]]; [None] when [i] is not an index of the array. *)
Definition read_cell (i : Z) (prog : list Z) : option Z :=
  if (0 <=? i) && (i <? program_size) then prog !! Z.to_nat i else None.

(** [g_program[i] = v], the value converted to [short]. *)
Definition write_cell (i : Z) (v : Z) (prog : list Z) : list Z :=
  <[Z.to_nat i := to_short v]> prog.

(** ** The two-pass assembler *)

Inductive error_kind :=
| TooManyWords
| LoneWord
| LabelWithoutMnemonic
| TooManyParameters
| ProgramTooLong
| UnexpectedParameter (instruction : mnemonic_t)
| MissingParameter (instruction : mnemonic_t)
| DatOutOfRange
| NumberTooLarge (token : string)
| LabelNotFound (token : string)
| OffsetTooLarge (token : string) (offset : Z).

(** One message written to [std::cerr]. *)
Record diagnostic := Diagnostic {
  d_line : Z;
  d_kind : error_kind
}.

(** The globals together with the locals of [parse]. *)
Record asm := Asm {
  glob : globals;
  errcount : Z;
  label_pc : gmap string Z;
  label_ref : list (Z * string);
  cerr : list diagnostic
}.

Definition initial_asm : asm :=
  {| glob := initial_globals; errcount := 0; label_pc := ∅;
     label_ref := []; cerr := [] |}.

(** [label_ref[k] = v] on the map ordered by key. *)
Fixpoint ref_set (k : Z) (v : string) (m : list (Z * string))
  : list (Z * string) :=
  match m with
  | [] => [(k, v)]
  | (k', v') :: m' =>
      if k <? k' then (k, v) :: m
      else if k =? k' then (k, v) :: m'
      else (k', v') :: ref_set k v m'
  end.

(** A message without [++errcount]. *)
Definition report (line : Z) (e : error_kind) (st : asm) : asm :=
  {| glob := glob st; errcount := errcount st; label_pc := label_pc st;
     label_ref := label_ref st;
     cerr := cerr st ++ [Diagnostic line e] |}.

(** [++errcount] followed by a message. *)
Definition count_error (line : Z) (e : error_kind) (st : asm) : asm :=
  {| glob := glob st; errcount := errcount st + 1; label_pc := label_pc st;
     label_ref := label_ref st;
     cerr := cerr st ++ [Diagnostic line e] |}.

(** [label_pc[name] = g_pc] *)
Definition set_label (name : string) (st : asm) : asm :=
  {| glob := glob st; errcount := errcount st;
     label_pc := <[name := g_pc (glob st)]> (label_pc st);
     label_ref := label_ref st; cerr := cerr st |}.

(** [g_program[g_pc] = v; ++g_pc;] *)
Definition store_word (v : Z) (st : asm) : asm :=
  let g := glob st in
  {| glob := {| g_pc := g_pc g + 1;
                g_program := write_cell (g_pc g) v (g_program g) |};
     errcount := errcount st; label_pc := label_pc st;
     label_ref := label_ref st; cerr := cerr st |}.

(** [g_program[g_pc] = base; label_ref[g_pc] = parameter; ++g_pc;] *)
Definition store_ref (base : Z) (parameter : string) (st : asm) : asm :=
  let g := glob st in
  {| glob := {| g_pc := g_pc g + 1;
                g_program := write_cell (g_pc g) base (g_program g) |};
     errcount := errcount st; label_pc := label_pc st;
     label_ref := ref_set (g_pc g) parameter (label_ref st);
     cerr := cerr st |}.

(** [parameter.empty()] *)
Definition empty (s : string) : bool := String.eqb s EmptyString.

(** The cases of HLT, INP and OUT: the parameter must be absent. *)
Definition emit_plain (line : Z) (instruction : mnemonic_t) (base : Z)
    (parameter : string) (st : asm) : asm :=
  if negb (empty parameter)
  then count_error line (UnexpectedParameter instruction) st
  else store_word base st.

(** The cases of ADD, SUB, STA, LDA, BRA, BRZ and BRP: the parameter is
    required and recorded as a pending reference. *)
Definition emit_ref (line : Z) (instruction : mnemonic_t) (base : Z)
    (parameter : string) (st : asm) : asm :=
  if empty parameter
  then count_error line (MissingParameter instruction) st
  else store_ref base parameter st.

(** The decimal digits at the head of [s], accumulated onto [n]. *)
Fixpoint leading_digits (s : list ascii) (n : Z) : Z :=
  match s with
  | [] => n
  | c :: s' => if is_digit c then leading_digits s' (n * 10 + digit_val c)
               else n
  end.

(** [atoi]: leading whitespace, an optional sign, then decimal digits up
    to the first character that is not one.  A value that an [int] cannot
    hold is undefined in C; the model reduces it to 32 bits. *)
Definition atoi (s : string) : Z :=
  match skip_space (c_str (list_ascii_of_string s)) with
  | "-"%char :: r => wrap32 (- leading_digits r 0)
  | "+"%char :: r => wrap32 (leading_digits r 0)
  | r => wrap32 (leading_digits r 0)
  end.

(** The case of DAT. *)
Definition emit_dat (line : Z) (parameter : string) (st : asm) : asm :=
  if empty parameter then store_word 0 st
  else
    let value := atoi parameter in
    if 999 <? value then report line DatOutOfRange st
    else store_word value st.

(** The capacity check and the [switch(instruction)] of pass 1.  [None]
    stands for the [std::logic_error] thrown in the case MNEMONIC_NONE. *)
Definition emit (line : Z) (instruction : mnemonic_t) (parameter : string)
    (st : asm) : option asm :=
  if program_size <=? g_pc (glob st)
  then Some (report line ProgramTooLong st)
  else
    match instruction with
    | -1 (* MNEMONIC_NONE *) => None
    | 0 (* MNEMONIC_HLT *) => Some (emit_plain line MNEMONIC_HLT 0 parameter st)
    | 1 (* MNEMONIC_ADD *) => Some (emit_ref line MNEMONIC_ADD 100 parameter st)
    | 2 (* MNEMONIC_SUB *) => Some (emit_ref line MNEMONIC_SUB 200 parameter st)
    | 3 (* MNEMONIC_STA *) => Some (emit_ref line MNEMONIC_STA 300 parameter st)
    | 4 (* MNEMONIC_LDA *) => Some (emit_ref line MNEMONIC_LDA 400 parameter st)
    | 5 (* MNEMONIC_BRA *) => Some (emit_ref line MNEMONIC_BRA 500 parameter st)
    | 6 (* MNEMONIC_BRZ *) => Some (emit_ref line MNEMONIC_BRZ 600 parameter st)
    | 7 (* MNEMONIC_BRP *) => Some (emit_ref line MNEMONIC_BRP 700 parameter st)
    | 8 (* MNEMONIC_INP *) => Some (emit_plain line MNEMONIC_INP 800 parameter st)
    | 9 (* MNEMONIC_OUT *) => Some (emit_plain line MNEMONIC_OUT 900 parameter st)
    | 10 (* MNEMONIC_DAT *) => Some (emit_dat line parameter st)
    | _ => Some st
    end.

(** The body of the [while(std::getline(in, input))] loop, [line] already
    incremented. *)
Definition process_line (line : Z) (input : string) (st : asm)
  : option asm :=
  match split input with
  | [] => Some st
  | w0 :: rest =>
      if negb (is_mnemonic w0 =? MNEMONIC_NONE) then
        match rest with
        | [] => emit line (is_mnemonic w0) EmptyString st
        | [w1] => emit line (is_mnemonic w0) w1 st
        | _ => Some (count_error line TooManyWords st)
        end
      else
        match rest with
        | [] => Some (count_error line LoneWord st)
        | w1 :: rest' =>
            if is_mnemonic w1 =? MNEMONIC_NONE
            then Some (count_error line LabelWithoutMnemonic st)
            else
              let st' := set_label w0 st in
              match rest' with
              | [] => emit line (is_mnemonic w1) EmptyString st'
              | [w2] => emit line (is_mnemonic w1) w2 st'
              | _ => Some (count_error line TooManyParameters st')
              end
        end
  end.

(** Pass 1: the lines of the file in order; [line] counts the lines read
    so far.  Returns the final state and the final value of [line]. *)
Fixpoint pass1 (lines : list string) (line : Z) (st : asm)
  : option (Z * asm) :=
  match lines with
  | [] => Some (line, st)
  | input :: lines' =>
      match process_line (line + 1) input st with
      | Some st' => pass1 lines' (line + 1) st'
      | None => None
      end
  end.

(** The inner loop of pass 2 over the characters of a token:
    [number = number * 10 + c - '0'] on digits, [number = -1; break]
    otherwise. *)
Fixpoint scan_number (cs : list ascii) (number : Z) : Z :=
  match cs with
  | [] => number
  | c :: cs' =>
      if is_digit c
      then scan_number cs' (wrap32 (number * 10 + Z.of_N (code c) - 48))
      else -1
  end.

(** [g_program[addr] += v] *)
Definition add_to_cell (addr : Z) (v : Z) (st : asm) : asm :=
  let g := glob st in
  let prog :=
    match read_cell addr (g_program g) with
    | Some x => write_cell addr (x + v) (g_program g)
    | None => g_program g
    end in
  {| glob := {| g_pc := g_pc g; g_program := prog |};
     errcount := errcount st; label_pc := label_pc st;
     label_ref := label_ref st; cerr := cerr st |}.

(** The body of the pass 2 loop for the pending reference [l]. *)
Definition resolve_ref (line : Z) (l : Z * string) (st : asm) : asm :=
  let number := scan_number (list_ascii_of_string l.2) 0 in
  if negb (number =? -1) then
    if 999 <? number
    then count_error line (NumberTooLarge l.2) st
    else add_to_cell l.1 number st
  else
    match label_pc st !! l.2 with
    | None => count_error line (LabelNotFound l.2) st
    | Some f =>
        let st' := if 99 <? f
                   then count_error line (OffsetTooLarge l.2 f) st
                   else st in
        add_to_cell l.1 f st'
    end.

(** Pass 2: [for(auto const & l : label_ref)]. *)
Definition pass2 (line : Z) (st : asm) : asm :=
  fold_left (fun s l => resolve_ref line l s) (label_ref st) st.

(** [parse] on the lines of an opened file: the value returned and the
    state left behind. *)
Definition parse (lines : list string) : option (bool * asm) :=
  match pass1 lines 0 initial_asm with
  | None => None
  | Some (line, st1) =>
      let st2 := pass2 line st1 in
      Some (if negb (errcount st2 =? 0) then false else true, st2)
  end.

(** ** The interpreter *)

(** The globals, the locals of [execute] and the two streams: [cin] holds
    the values [std::cin >> value] delivers, each an [int], and [cout] the
    numbers OUT prints. *)
Record machine := Machine {
  mglob : globals;
  acc : Z;
  overflow : bool;
  cin : list Z;
  cout : list Z
}.

(** What one turn of the [for(;;)] loop of [execute] leads to.
    [OutOfBounds i m] marks an access [g_program[i]] with [i] outside the
    array (undefined behaviour in the source); [InputWait] marks an INP with
    nothing left to read: the source then goes on with [value] never
    assigned, an indeterminate number, and the model follows it no
    further. *)
Inductive outcome :=
| Continue (m : machine)
| Halt (m : machine)
| OutOfBounds (index : Z) (m : machine)
| InputWait (m : machine).

Definition set_pc (p : Z) (m : machine) : machine :=
  {| mglob := {| g_pc := p; g_program := g_program (mglob m) |};
     acc := acc m; overflow := overflow m; cin := cin m; cout := cout m |}.

Definition set_acc (a : Z) (m : machine) : machine :=
  {| mglob := mglob m; acc := a; overflow := overflow m;
     cin := cin m; cout := cout m |}.

Definition set_acc_overflow (a : Z) (o : bool) (m : machine) : machine :=
  {| mglob := mglob m; acc := a; overflow := o;
     cin := cin m; cout := cout m |}.

Definition set_program (prog : list Z) (m : machine) : machine :=
  {| mglob := {| g_pc := g_pc (mglob m); g_program := prog |};
     acc := acc m; overflow := overflow m; cin := cin m; cout := cout m |}.

(** The [switch(instruction)] of [execute], after [++g_pc]. *)
Definition dispatch (instruction loc : Z) (m : machine) : outcome :=
  let prog := g_program (mglob m) in
  match instruction with
  | 0 (* MNEMONIC_HLT *) => Halt m
  | 1 (* MNEMONIC_ADD *) =>
      match read_cell loc prog with
      | None => OutOfBounds loc m
      | Some v =>
          Continue (set_acc_overflow (cmod (acc m + v) 1000)
                                     (999 <? acc m + v) m)
      end
  | 2 (* MNEMONIC_SUB *) =>
      match read_cell loc prog with
      | None => OutOfBounds loc m
      | Some v =>
          Continue (set_acc_overflow (cmod (acc m - v) 1000)
                                     (acc m <? v) m)
      end
  | 3 (* MNEMONIC_STA *) =>
      match read_cell loc prog with
      | None => OutOfBounds loc m
      | Some _ => Continue (set_program (write_cell loc (acc m) prog) m)
      end
  | 4 (* MNEMONIC_LDA *) =>
      match read_cell loc prog with
      | None => OutOfBounds loc m
      | Some v => Continue (set_acc v m)
      end
  | 5 (* MNEMONIC_BRA *) => Continue (set_pc loc m)
  | 6 (* MNEMONIC_BRZ *) =>
      if acc m =? 0 then Continue (set_pc loc m) else Continue m
  | 7 (* MNEMONIC_BRP *) =>
      if negb (overflow m) then Continue (set_pc loc m) else Continue m
  | 8 (* MNEMONIC_INP *) =>
      match cin m with
      | [] => InputWait m
      | value :: rest =>
          Continue {| mglob := mglob m; acc := cmod value 1000;
                      overflow := overflow m; cin := rest; cout := cout m |}
      end
  | 9 (* MNEMONIC_OUT *) =>
      Continue {| mglob := mglob m; acc := acc m; overflow := overflow m;
                  cin := cin m; cout := cout m ++ [acc m] |}
  | _ => Continue m
  end.

(** One turn of the loop: fetch, decode, [++g_pc], dispatch. *)
Definition step (m : machine) : outcome :=
  match read_cell (g_pc (mglob m)) (g_program (mglob m)) with
  | None => OutOfBounds (g_pc (mglob m)) m
  | Some cell =>
      let instruction := cdiv cell 100 in
      let loc := cmod cell 100 in
      dispatch instruction loc (set_pc (g_pc (mglob m) + 1) m)
  end.

(** The loop, cut after [fuel] turns: [Continue m] is returned when the
    turns are used up and the machine is still running. *)
Fixpoint run (fuel : nat) (m : machine) : outcome :=
  match fuel with
  | O => Continue m
  | S fuel' =>
      match step m with
      | Continue m' => run fuel' m'
      | o => o
      end
  end.

(** [execute]: [g_pc = 0; int acc(0); bool overflow(false);] and the
    loop. *)
Definition boot (g : globals) (input : list Z) : machine :=
  {| mglob := {| g_pc := 0; g_program := g_program g |};
     acc := 0; overflow := false; cin := input; cout := [] |}.

Definition execute (fuel : nat) (g : globals) (input : list Z) : outcome :=
  run fuel (boot g input).

(** ** The entry point

    [main] after its options are read, without the listing of [-s]:
    [if(!parse(filename)) return 1; execute(); return 0;]. *)
Inductive exit :=
| ExitFailure (st : asm)
| Executed (o : outcome)
| LogicError.

Definition lmc (fuel : nat) (lines : list string) (input : list Z) : exit :=
  match parse lines with
  | None => LogicError
  | Some (false, st) => ExitFailure st
  | Some (true, st) => Executed (execute fuel (glob st) input)
  end.

(** ** The command line

    [main]: the program name, the options, then [parse] and either the
    listing of [-s] or [execute].  The entries of [argv] are C strings, so
    without a NUL character. *)

(** [rfind('/')] followed by [substr(pos + 1)]: what follows the last
    slash, if there is one. *)
Fixpoint after_last_slash (s : string) : option string :=
  match s with
  | EmptyString => None
  | String c s' =>
      match after_last_slash s' with
      | Some r => Some r
      | None => if (code c =? 47)%N then Some s' else None
      end
  end.

(** [g_progname] *)
Definition progname (argv0 : string) : string :=
  match after_last_slash argv0 with
  | Some r => r
  | None => argv0
  end.

Inductive flags_result :=
| FlagsDone (show : bool)
| FlagHelp
| FlagUnknown (c : ascii).

(** The loop over the letters of an option, [argv[i][j]] from [j = 1]. *)
Fixpoint scan_flags (letters : list ascii) (show : bool) : flags_result :=
  match letters with
  | [] => FlagsDone show
  | c :: letters' =>
      if (code c =? 104)%N (* 'h' *) then FlagHelp
      else if (code c =? 115)%N (* 's' *) then scan_flags letters' true
      else FlagUnknown c
  end.

Inductive args_result :=
| ArgsOk (show : bool) (filename : string)
| ArgsHelp
| ArgsUnknownOption (c : ascii)
| ArgsTooManyFiles
| ArgsNoFile.

(** The loop over [argv[1]] .. [argv[argc - 1]] and the test of the file
    name that follows it. *)
Fixpoint scan_args (args : list string) (show : bool) (filename : string)
  : args_result :=
  match args with
  | [] => if empty filename then ArgsNoFile else ArgsOk show filename
  | arg :: args' =>
      match arg with
      | String c letters =>
          if (code c =? 45)%N (* '-' *) then
            match scan_flags (list_ascii_of_string letters) show with
            | FlagsDone show' => scan_args args' show' filename
            | FlagHelp => ArgsHelp
            | FlagUnknown u => ArgsUnknownOption u
            end
          else if empty filename then scan_args args' show arg
          else ArgsTooManyFiles
      | EmptyString =>
          if empty filename then scan_args args' show arg
          else ArgsTooManyFiles
      end
  end.

(** The rows printed by [-s]: the address and [g_program[pc]] for every
    [pc] below [g_pc]; [None] marks a read outside the array. *)
Definition listing (g : globals) : list (Z * option Z) :=
  (fun pc => (pc, read_cell pc (g_program g))) <$> seqZ 0 (g_pc g).

(** What a call of [main] comes to. *)
Inductive main_result :=
| MainUsage (name : string)
| MainUnknownOption (c : ascii)
| MainTooManyFiles
| MainNoFile
| MainCannotOpen (filename : string)
| MainAssemblyFailed (st : asm)
| MainListing (rows : list (Z * option Z))
| MainExecuted (o : outcome)
| MainLogicError.

(** [main] with [argv[0]], the other arguments, the files that can be
    opened (with their lines) and the numbers on [std::cin]. *)
Definition main (fuel : nat) (argv0 : string) (args : list string)
    (files : string -> option (list string)) (input : list Z)
  : main_result :=
  match scan_args args false EmptyString with
  | ArgsHelp => MainUsage (progname argv0)
  | ArgsUnknownOption c => MainUnknownOption c
  | ArgsTooManyFiles => MainTooManyFiles
  | ArgsNoFile => MainNoFile
  | ArgsOk show filename =>
      match files filename with
      | None => MainCannotOpen filename
      | Some lines =>
          match parse lines with
          | None => MainLogicError
          | Some (false, st) => MainAssemblyFailed st
          | Some (true, st) =>
              if show then MainListing (listing (glob st))
              else MainExecuted (execute fuel (glob st) input)
          end
      end
  end.

(** The value [main] returns; [None] when it does not return (the loop of
    [execute] still runs, waits or has left the array, or the exception
    went up). *)
Definition exit_code (r : main_result) : option Z :=
  match r with
  | MainListing _ => Some 0
  | MainExecuted (Halt _) => Some 0
  | MainExecuted _ => None
  | MainLogicError => None
  | _ => Some 1
  end.

(** ** Vocabulary of the properties *)

(** The token is made of decimal digits only. *)
Definition all_digits (token : string) : bool :=
  forallb is_digit (list_ascii_of_string token).

(** The number an all-digit token denotes. *)
Definition decimal (token : string) : Z :=
  leading_digits (list_ascii_of_string token) 0.

(** The diagnostics that come with [++errcount] in the source. *)
Definition counted (d : diagnostic) : bool :=
  match d_kind d with
  | ProgramTooLong | DatOutOfRange => false
  | _ => true
  end.

(** The error counter equals the number of counted diagnostics. *)
Definition count_ok (st : asm) : Prop :=
  errcount st = Z.of_nat (length (filter (fun d => counted d = true) (cerr st))).

(** A line that emits an instruction or data word when there is room for
    it: processed first in an empty image, it advances the counter. *)
Definition line_emits (input : string) : bool :=
  match process_line 1 input initial_asm with
  | Some st => g_pc (glob st) =? 1
  | None => false
  end.

(** An operand that pass 2 accepts: a number not above 999, or a label of
    the table. *)
Definition resolvable (labels : gmap string Z) (token : string) : Prop :=
  if all_digits token then decimal token <= 999
  else is_Some (labels !! token).

(** What pass 1 maintains: 100 cells; a counter between 0 and 100; every
    pending reference at an address below the counter, with a non-empty
    token, its cell holding opcode * 100 for one of the seven opcodes with
    an operand; no address pending twice; every label bound to an address
    between 0 and the counter. *)
Record asm_ok (st : asm) : Prop := AsmOk {
  ok_length : length (g_program (glob st)) = 100%nat;
  ok_pc : 0 <= g_pc (glob st) <= program_size;
  ok_refs : forall a tok, (a, tok) ∈ label_ref st ->
      0 <= a < g_pc (glob st) /\ tok <> EmptyString /\
      exists opcode, 1 <= opcode <= 7 /\
        read_cell a (g_program (glob st)) = Some (opcode * 100);
  ok_keys : NoDup (label_ref st).*1;
  ok_labels : forall name a, label_pc st !! name = Some a ->
      0 <= a <= g_pc (glob st)
}.

(** Every label is bound to an address below the counter: the case when
    every line read so far has emitted a word. *)
Definition labels_below (st : asm) : Prop :=
  forall name a, label_pc st !! name = Some a -> a < g_pc (glob st).

(** The machines the interpreter can be in: 100 cells and a program
    counter between 0 and 100. *)
Definition machine_ok (m : machine) : Prop :=
  length (g_program (mglob m)) = 100%nat /\
  0 <= g_pc (mglob m) <= program_size.

(** The eleven names, by the value [is_mnemonic] returns for them. *)
Definition mnemonic_name (k : mnemonic_t) : option string :=
  match k with
  | 0 => Some "HLT" | 1 => Some "ADD" | 2 => Some "SUB" | 3 => Some "STA"
  | 4 => Some "LDA" | 5 => Some "BRA" | 6 => Some "BRZ" | 7 => Some "BRP"
  | 8 => Some "INP" | 9 => Some "OUT" | 10 => Some "DAT"
  | _ => None
  end%string.

(** A character a token can hold: no NUL, no whitespace, no comment
    character. *)
Definition word_char (c : ascii) : bool :=
  negb (is_nul c) && negb (isspace c) && negb (is_comment c).

(** A token as [split] returns them. *)
Definition token_ok (w : string) : Prop :=
  w <> EmptyString /\ forallb word_char (list_ascii_of_string w) = true.

(** The cells from the counter on hold 0. *)
Definition tail_zero (st : asm) : Prop :=
  forall i, g_pc (glob st) <= i < program_size ->
            read_cell i (g_program (glob st)) = Some 0.

(** The machine an outcome carries. *)
Definition machine_of (o : outcome) : machine :=
  match o with
  | Continue m | Halt m | OutOfBounds _ m | InputWait m => m
  end.

(** An argument [main] reads as options: it starts with '-'. *)
Definition is_option (arg : string) : bool :=
  match arg with
  | String c _ => (code c =? 45)%N
  | EmptyString => false
  end.

(** The letters of all the options, in order. *)
Fixpoint option_letters (args : list string) : list ascii :=
  match args with
  | [] => []
  | arg :: args' =>
      match arg with
      | String c letters =>
          if (code c =? 45)%N
          then list_ascii_of_string letters ++ option_letters args'
          else option_letters args'
      | EmptyString => option_letters args'
      end
  end.

(** The arguments that can name the file: not options, not empty. *)
Fixpoint file_arguments (args : list string) : list string :=
  match args with
  | [] => []
  | arg :: args' =>
      if is_option arg || empty arg then file_arguments args'
      else arg :: file_arguments args'
  end.

Definition no_slash (s : string) : bool :=
  forallb (fun c => negb (code c =? 47)%N) (list_ascii_of_string s).

(** Two states of the assembler that differ at most in the line numbers
    of their messages. *)
Definition same_but_lines (st st' : asm) : Prop :=
  glob st = glob st' /\ errcount st = errcount st' /\
  label_pc st = label_pc st' /\ label_ref st = label_ref st' /\
  d_kind <$> cerr st = d_kind <$> cerr st'.

(** The values of a [short]. *)
Definition short_range (x : Z) : Prop := -32768 <= x <= 32767.

(** Every cell and the accumulator hold a value of a [short]. *)
Definition fits_short (m : machine) : Prop :=
  Forall short_range (g_program (mglob m)) /\ short_range (acc m).

(** The image and the accumulator hold three-digit values. *)
Definition in_range (m : machine) : Prop :=
  Forall (fun c => 0 <= c <= 999) (g_program (mglob m)) /\
  0 <= acc m <= 999.

(** Case analysis on an opcode: the literals of a [switch] are at most
    four binary digits long. *)
Ltac opcode_cases k :=
  let p := fresh "p" in
  destruct k as [|p|p];
  [ | do 4 (try destruct p as [p|p|]) | do 1 (try destruct p as [p|p|]) ].

(** The opcode of a base value [opcode * 100]. *)
Ltac pick_opcode :=
  first [ exists 1; split; [lia | reflexivity]
        | exists 2; split; [lia | reflexivity]
        | exists 3; split; [lia | reflexivity]
        | exists 4; split; [lia | reflexivity]
        | exists 5; split; [lia | reflexivity]
        | exists 6; split; [lia | reflexivity]
        | exists 7; split; [lia | reflexivity] ].

(** Two states equal up to line numbers, field by field. *)
Ltac sim_records st s H :=
  destruct st as [gl0 ec0 lp0 lr0 ce0], s as [gl1 ec1 lp1 lr1 ce1];
  destruct H as (Sg & Se & Slp & Slr & Hce); simpl in Sg, Se, Slp, Slr, Hce;
  subst gl1 ec1 lp1 lr1.

Ltac sim_solve Hce :=
  eexists; split; [reflexivity|];
  repeat split; simpl; rewrite ?fmap_app, ?Hce; reflexivity.

(** * Properties *)

(** ** The tokenizer *)

Section Tokenizer.

Import TokenizerSpec.

Lemma space_not_comment c : isspace c = true -> is_comment c = false.
Proof.
  unfold isspace, is_comment. intros H.
  destruct (N.eqb_spec (code c) 35), (N.eqb_spec (code c) 47),
    (N.eqb_spec (code c) 59); try reflexivity;
    exfalso; revert H;
    repeat match goal with E : code c = _ |- _ => rewrite E end;
    vm_compute; discriminate.
Qed.

Lemma space_not_nul c : isspace c = true -> is_nul c = false.
Proof.
  unfold isspace, is_nul. intros H.
  destruct (N.eqb_spec (code c) 0) as [E|]; [|reflexivity].
  rewrite E in H. vm_compute in H. discriminate.
Qed.

Lemma c_str_nul_free s :
  forallb (fun c => negb (is_nul c)) s = true -> c_str s = s.
Proof.
  induction s as [|c s IH]; simpl; [reflexivity|].
  intros [Hc Hs]%andb_prop. apply negb_true_iff in Hc.
  rewrite Hc, IH; auto.
Qed.

Lemma skip_space_length s : (length (skip_space s) <= length s)%nat.
Proof.
  induction s as [|c s IH]; simpl; [lia|].
  destruct (isspace c); simpl; lia.
Qed.

Lemma skip_space_words s :
  ws_words (before_comment (skip_space s)) [] =
  ws_words (before_comment s) [].
Proof.
  induction s as [|c s IH]; simpl; [reflexivity|].
  destruct (isspace c) eqn:Hsp; [|reflexivity].
  rewrite (space_not_comment c Hsp). simpl. rewrite Hsp. exact IH.
Qed.

Lemma scan_word_length s w r :
  scan_word s = (w, r) -> (length w + length r = length s)%nat.
Proof.
  revert w r. induction s as [|c s IH]; simpl; intros w r H.
  - injection H as <- <-. reflexivity.
  - destruct (isspace c || is_comment c).
    + injection H as <- <-. reflexivity.
    + destruct (scan_word s) as [w' r'] eqn:E.
      injection H as <- <-. simpl. rewrite (IH w' r' eq_refl). reflexivity.
Qed.

Lemma scan_word_words s w r cur :
  scan_word s = (w, r) ->
  ws_words (before_comment s) cur =
  flush (cur ++ w) ++ ws_words (before_comment r) [].
Proof.
  revert w r cur. induction s as [|c s IH]; simpl; intros w r cur H.
  - injection H as <- <-. simpl. rewrite !app_nil_r. reflexivity.
  - destruct (isspace c) eqn:Hsp; simpl in H.
    + injection H as <- <-. simpl.
      rewrite (space_not_comment c Hsp). simpl.
      rewrite Hsp, app_nil_r. reflexivity.
    + destruct (is_comment c) eqn:Hcm.
      * injection H as <- <-. simpl. rewrite Hcm, !app_nil_r. reflexivity.
      * destruct (scan_word s) as [w' r'] eqn:E.
        injection H as <- <-. simpl. rewrite Hsp.
        rewrite (IH w' r' (cur ++ [c]) eq_refl), <- app_assoc.
        reflexivity.
Qed.

(** With more fuel than characters, the loop appends to [words] the
    whitespace-delimited words found before the first comment
    character. *)
Lemma split_loop_words fuel : forall s words,
  (length s < fuel)%nat ->
  split_loop fuel s words = words ++ ws_words (before_comment s) [].
Proof.
  induction fuel as [|fuel IH]; intros s words Hlen; [lia|].
  simpl. rewrite <- (skip_space_words s).
  pose proof (skip_space_length s) as Hsk.
  destruct (skip_space s) as [|c s1] eqn:Es.
  - simpl. rewrite app_nil_r. reflexivity.
  - destruct (is_comment c) eqn:Hcm.
    + simpl. rewrite Hcm. simpl. rewrite app_nil_r. reflexivity.
    + assert (Hsp : isspace c = false).
      { destruct s as [|d s]; [discriminate|].
        clear -Es. induction (d :: s) as [|e t IHt]; [discriminate|].
        simpl in Es. destruct (isspace e) eqn:He; [auto|].
        injection Es as -> _. exact He. }
      assert (Ew : scan_word (c :: s1) =
                   (c :: (scan_word s1).1, (scan_word s1).2)).
      { simpl. rewrite Hsp, Hcm. simpl.
        destruct (scan_word s1); reflexivity. }
      pose proof (scan_word_length _ _ _ Ew) as Hl.
      rewrite (scan_word_words _ _ _ [] Ew).
      rewrite Hsp. simpl.
      destruct (scan_word s1) as [w' r'] eqn:E'. simpl in Hl, Hsk |- *.
      rewrite IH by lia. simpl. rewrite <- app_assoc. reflexivity.
Qed.

(** The tokenizer on any [std::string]: the words of its C string. *)
Lemma split_c_str input :
  split input =
  ws_words (before_comment (c_str (list_ascii_of_string input))) [].
Proof.
  unfold split. rewrite split_loop_words by lia. reflexivity.
Qed.

Lemma blank_no_words s cur :
  forallb isspace s = true -> ws_words (before_comment s) cur = flush cur.
Proof.
  revert cur. induction s as [|c s IH]; simpl; intros cur H; [reflexivity|].
  apply andb_prop in H as [Hc Hs].
  rewrite (space_not_comment c Hc). simpl. rewrite Hc, (IH [] Hs).
  apply app_nil_r.
Qed.

End Tokenizer.

(** C9. On a line of text (no NUL character), [split] returns, in order,
    the whitespace-delimited words of the part of the line before the first
    '#', '/' or ';' (a word is cut short by a comment character inside it);
    the result is empty for a blank line and for a line whose first
    non-whitespace character is a comment character. *)
Theorem split_tokens (input : string) :
  TokenizerSpec.nul_free input = true ->
  split input = TokenizerSpec.tokens input /\
  (TokenizerSpec.blank input = true -> split input = []) /\
  (TokenizerSpec.starts_comment input = true -> split input = []).
Proof.
  intros Hnul. unfold TokenizerSpec.tokens.
  rewrite split_c_str, (c_str_nul_free _ Hnul).
  split; [reflexivity|]. split.
  - intros Hb. apply (blank_no_words _ [] Hb).
  - unfold TokenizerSpec.starts_comment. intros Hc.
    rewrite <- skip_space_words.
    destruct (skip_space (list_ascii_of_string input)) as [|c s];
      [discriminate|].
    simpl. rewrite Hc. reflexivity.
Qed.

Lemma split_tokens_witness :
  (TokenizerSpec.nul_free "  loop  ADD one# comment" = true /\
   split "  loop  ADD one# comment" = ["loop"; "ADD"; "one"]%string) /\
  (TokenizerSpec.blank "  	 " = true /\ split "  	 " = []) /\
  (TokenizerSpec.starts_comment " ; all of it" = true /\
   split " ; all of it" = []).
Proof.
  split; [|split].
  - split; [reflexivity|].
    rewrite (proj1 (split_tokens "  loop  ADD one# comment" eq_refl)).
    reflexivity.
  - split; [reflexivity|].
    exact (proj1 (proj2 (split_tokens "  	 " eq_refl)) eq_refl).
  - split; [reflexivity|].
    exact (proj2 (proj2 (split_tokens " ; all of it" eq_refl)) eq_refl).
Defined.

(** ** The interpreter *)

Section Interpreter.

Implicit Types (m : machine) (prog : list Z).

Lemma read_cell_bounds i prog v :
  read_cell i prog = Some v -> 0 <= i < program_size.
Proof.
  unfold read_cell.
  destruct (Z.leb_spec 0 i), (Z.ltb_spec i program_size);
    simpl; intros; try discriminate; lia.
Qed.

Lemma read_cell_in_range i prog :
  length prog = 100%nat -> 0 <= i < program_size ->
  is_Some (read_cell i prog).
Proof.
  unfold read_cell, program_size. intros Hlen Hi.
  destruct (Z.leb_spec 0 i), (Z.ltb_spec i 100); try lia. simpl.
  apply lookup_lt_is_Some. lia.
Qed.

(** A cell whose opcode field is positive has its operand field in
    [0, 99]. *)
Lemma operand_range cell :
  1 <= cdiv cell 100 -> 0 <= cmod cell 100 < program_size.
Proof.
  unfold cdiv, cmod, program_size. intros H.
  Z.to_euclidean_division_equations. lia.
Qed.

Lemma wrap16_range x : -32768 <= x <= 32767 -> to_short x = x.
Proof.
  intros H. unfold to_short, wrap.
  change (2 ^ 16) with 65536. change (2 ^ (16 - 1)) with 32768.
  destruct (Z.ltb_spec (x mod 65536) 32768);
    Z.to_euclidean_division_equations; lia.
Qed.

Lemma cmod_nonneg a : 0 <= a -> cmod a 1000 = a mod 1000.
Proof.
  unfold cmod. intros H. Z.to_euclidean_division_equations. lia.
Qed.

Lemma cmod_small a : -1000 < a < 1000 -> cmod a 1000 = a.
Proof.
  unfold cmod. intros H. Z.to_euclidean_division_equations. lia.
Qed.

(** What SUB does on values of the range [0, 999]: the difference itself,
    which is negative exactly when the overflow flag is raised. *)
Lemma sub_semantics m loc v :
  read_cell loc (g_program (mglob m)) = Some v ->
  0 <= acc m <= 999 -> 0 <= v <= 999 ->
  dispatch MNEMONIC_SUB loc m =
  Continue (set_acc_overflow (acc m - v) (acc m <? v) m).
Proof.
  intros Hv Ha Hr. simpl. rewrite Hv, cmod_small by lia. reflexivity.
Qed.

(** An opcode that is none of the ten cases of the [switch] falls
    through it. *)
Lemma dispatch_other k loc m :
  ~ (0 <= k <= 9) -> dispatch k loc m = Continue m.
Proof.
  intros Hk. opcode_cases k; try reflexivity; exfalso; lia.
Qed.

Lemma boot_ok g input :
  length (g_program g) = 100%nat -> machine_ok (boot g input).
Proof. intros H. split; simpl; [exact H | unfold program_size; lia]. Qed.

(** The operand-indexed accesses of ADD, SUB, STA and LDA and the branch
    targets are always inside the array; the only access that can leave
    it is the fetch, at index 100. *)
Lemma step_ok m :
  machine_ok m ->
  match step m with
  | Continue m' => machine_ok m'
  | OutOfBounds i _ => i = program_size /\ g_pc (mglob m) = program_size
  | _ => True
  end.
Proof.
  intros [Hlen Hpc]. unfold step.
  destruct (read_cell (g_pc (mglob m)) (g_program (mglob m)))
    as [cell|] eqn:Hf.
  - apply read_cell_bounds in Hf.
    set (m1 := set_pc (g_pc (mglob m) + 1) m).
    assert (Hm1 : machine_ok m1) by (split; simpl; [exact Hlen | lia]).
    assert (Hop : 1 <= cdiv cell 100 ->
                  is_Some (read_cell (cmod cell 100) (g_program (mglob m)))).
    { intros H. apply read_cell_in_range; [exact Hlen|].
      apply operand_range, H. }
    pose proof (operand_range cell) as Hr.
    destruct (cdiv cell 100) as [|p|p] eqn:Hk;
      [ | do 4 (try destruct p as [p|p|]) | try destruct p as [p|p|] ];
      simpl; try exact Hm1; try exact I;
      try (destruct Hop as [v Hv]; [lia|]; simpl in Hv; rewrite Hv);
      try destruct (acc m =? 0); try destruct (negb (overflow m));
      try destruct (cin m);
      try exact Hm1; try exact I;
      (split; simpl;
       [ first [ exact Hlen
               | unfold write_cell; rewrite length_insert; exact Hlen ]
       | lia ]).
  - assert (E : g_pc (mglob m) = program_size).
    { destruct (Z.eq_dec (g_pc (mglob m)) program_size) as [E|N];
        [exact E|].
      destruct (read_cell_in_range (g_pc (mglob m)) _ Hlen) as [v Hv];
        [lia | congruence]. }
    split; exact E.
Qed.

Lemma read_cell_Forall (P : Z -> Prop) i prog v :
  Forall P prog -> read_cell i prog = Some v -> P v.
Proof.
  unfold read_cell. intros HP H.
  destruct ((0 <=? i) && (i <? program_size)); [|discriminate].
  exact (Forall_lookup_1 _ _ _ _ HP H).
Qed.

(** Where the three-digit range is kept and where it is left: a turn of
    the loop keeps it, except SUB when it borrows and INP when the number
    read is negative. *)
Lemma step_range m m' cell :
  in_range m ->
  read_cell (g_pc (mglob m)) (g_program (mglob m)) = Some cell ->
  step m = Continue m' ->
  in_range m' \/
  (cdiv cell 100 = MNEMONIC_SUB /\ -1000 < acc m' < 0) \/
  (cdiv cell 100 = MNEMONIC_INP /\
   exists v rest, cin m = v :: rest /\ v < 0).
Proof.
  intros [Hcells Hacc] Hf. unfold step. rewrite Hf. cbv zeta.
  set (loc := cmod cell 100).
  destruct (cdiv cell 100) as [|p|p] eqn:Hk;
    [ | do 4 (try destruct p as [p|p|]) | try destruct p as [p|p|] ];
    simpl; try discriminate;
    repeat match goal with
      | |- context [match read_cell ?l ?p with _ => _ end] =>
          let Hv := fresh "Hv" in
          destruct (read_cell l p) as [v|] eqn:Hv;
          [ pose proof (read_cell_Forall _ _ _ _ Hcells Hv) as Hr;
            simpl in Hr
          | discriminate ]
      | |- context [match cin m with _ => _ end] =>
          destruct (cin m) as [|v rest] eqn:Hin; [discriminate|]
      | |- context [if ?b then _ else _] => destruct b
      end;
    intros H; injection H as <-;
    try (left; split; simpl;
         [ first [ exact Hcells
                 | apply Forall_insert;
                   [exact Hcells | rewrite wrap16_range by lia; exact Hacc] ]
         | first [ exact Hacc | exact Hr
                 | unfold cmod; Z.to_euclidean_division_equations; lia ] ];
         fail).
  - (* INP *)
    destruct (Z_lt_le_dec v 0) as [Hneg|Hpos].
    + right. right. split; [reflexivity|]. eauto.
    + left. split; [exact Hcells|]. simpl.
      unfold cmod. Z.to_euclidean_division_equations. lia.
  - (* SUB *)
    simpl. rewrite cmod_small by lia.
    destruct (Z_lt_le_dec (acc m) v) as [Hb|Hnb].
    + right. left. split; [reflexivity | lia].
    + left. split; [exact Hcells | simpl; lia].
Qed.

End Interpreter.

(** C7. A turn of the interpreter loop fetches the cell at the program
    counter, decodes it as opcode [cell / 100] and operand [cell % 100],
    increments the program counter and then dispatches: the turn leaves the
    counter one further unless a branch (opcode 5, 6 or 7) sets it to the
    operand.  An opcode that is none of 0..9 changes nothing else and the
    loop goes on. *)
Theorem step_fetch_decode (m : machine) (cell : Z) :
  read_cell (g_pc (mglob m)) (g_program (mglob m)) = Some cell ->
  step m = dispatch (Z.quot cell 100) (Z.rem cell 100)
                    (set_pc (g_pc (mglob m) + 1) m) /\
  (forall m', step m = Continue m' ->
     g_pc (mglob m') = g_pc (mglob m) + 1 \/
     (5 <= Z.quot cell 100 <= 7 /\ g_pc (mglob m') = Z.rem cell 100)) /\
  (~ (0 <= Z.quot cell 100 <= 9) ->
   step m = Continue (set_pc (g_pc (mglob m) + 1) m)).
Proof.
  intros Hf. unfold step. rewrite Hf. cbv zeta. unfold cdiv, cmod.
  split; [reflexivity|]. split.
  - intros m'. set (loc := Z.rem cell 100).
    destruct (Z.quot cell 100) as [|p|p];
      [ | do 4 (try destruct p as [p|p|]) | try destruct p as [p|p|] ];
      simpl; try discriminate;
      repeat match goal with
        | |- context [match read_cell ?l ?p with _ => _ end] =>
            destruct (read_cell l p); [|discriminate]
        | |- context [match cin m with _ => _ end] =>
            destruct (cin m); [discriminate|]
        | |- context [if ?b then _ else _] => destruct b
        end;
      intros H; injection H as <-; simpl;
      first [ left; reflexivity | right; split; [lia | reflexivity] ].
  - intros Hk. apply dispatch_other. exact Hk.
Qed.

Lemma step_fetch_decode_witness :
  let m := boot {| g_pc := 0; g_program := 1099 :: replicate 99 0 |} [] in
  read_cell (g_pc (mglob m)) (g_program (mglob m)) = Some 1099 /\
  ~ (0 <= Z.quot 1099 100 <= 9) /\
  step m = Continue (set_pc 1 m).
Proof.
  intros m.
  assert (Hf : read_cell (g_pc (mglob m)) (g_program (mglob m)) = Some 1099)
    by reflexivity.
  assert (Hk : ~ (0 <= Z.quot 1099 100 <= 9)) by (vm_compute; intuition).
  split; [exact Hf|]. split; [exact Hk|].
  exact (proj2 (proj2 (step_fetch_decode m 1099 Hf)) Hk).
Defined.

(** X29. ADD with accumulator [a] on an operand cell holding [v] sets the
    overflow flag to [a + v > 999] and the accumulator to [(a + v) % 1000],
    the truncating remainder, which is [(a + v) mod 1000] when the sum is
    not negative, and leaves the rest of the machine as it is; so does a
    turn of the loop on a cell with opcode 1, one cell further.  LDA of a
    cell holding 999 followed by ADD of a cell holding 2 leaves overflow
    set and the accumulator at 1. *)
Theorem add_semantics (m : machine) (loc v : Z) :
  read_cell loc (g_program (mglob m)) = Some v ->
  dispatch MNEMONIC_ADD loc m =
    Continue (set_acc_overflow (Z.rem (acc m + v) 1000)
                               (999 <? acc m + v) m) /\
  (0 <= acc m + v -> Z.rem (acc m + v) 1000 = (acc m + v) mod 1000) /\
  (forall cell,
     read_cell (g_pc (mglob m)) (g_program (mglob m)) = Some cell ->
     Z.quot cell 100 = MNEMONIC_ADD -> Z.rem cell 100 = loc ->
     step m =
     Continue (set_acc_overflow (Z.rem (acc m + v) 1000) (999 <? acc m + v)
                                (set_pc (g_pc (mglob m) + 1) m))) /\
  (forall x, read_cell x (g_program (mglob m)) = Some 999 -> v = 2 ->
     exists m1 m2,
       dispatch MNEMONIC_LDA x m = Continue m1 /\
       dispatch MNEMONIC_ADD loc m1 = Continue m2 /\
       acc m2 = 1 /\ overflow m2 = true).
Proof.
  intros Hv. split; [simpl; rewrite Hv; reflexivity|].
  split; [apply cmod_nonneg|]. split.
  - intros cell Hf Hk Hloc. unfold step. rewrite Hf. cbv zeta.
    unfold cdiv, cmod. rewrite Hk, Hloc. simpl. rewrite Hv. reflexivity.
  - intros x Hx ->. eexists _, _.
    split; [simpl; rewrite Hx; reflexivity|].
    split; [simpl; rewrite Hv; reflexivity|].
    split; reflexivity.
Qed.

(** ** The assembler *)

Section Assembler.

Implicit Types (st : asm) (prog : list Z).

Lemma wrap32_small x : 0 <= x <= INT_MAX -> wrap32 x = x.
Proof.
  unfold INT_MAX. intros H. unfold wrap32, wrap.
  change (2 ^ 32) with 4294967296. change (2 ^ (32 - 1)) with 2147483648.
  destruct (Z.ltb_spec (x mod 4294967296) 2147483648);
    Z.to_euclidean_division_equations; lia.
Qed.

Lemma is_mnemonic_range w : -1 <= is_mnemonic w <= 10.
Proof.
  unfold is_mnemonic.
  repeat match goal with
         | |- context [if ?b then _ else _] => destruct b
         end; vm_compute; split; discriminate.
Qed.

Lemma read_write_same i v prog :
  length prog = 100%nat -> 0 <= i < program_size ->
  read_cell i (write_cell i v prog) = Some (to_short v).
Proof.
  unfold read_cell, write_cell, program_size. intros Hlen Hi.
  destruct (Z.leb_spec 0 i), (Z.ltb_spec i 100); try lia. simpl.
  apply list_lookup_insert_eq. lia.
Qed.

Lemma read_write_other i j v prog :
  i <> j -> 0 <= j ->
  read_cell i (write_cell j v prog) = read_cell i prog.
Proof.
  unfold read_cell, write_cell. intros Hne Hj.
  destruct (Z.leb_spec 0 i), (Z.ltb_spec i program_size);
    simpl; try reflexivity.
  apply list_lookup_insert_ne. lia.
Qed.

Lemma write_cell_length i v prog :
  length (write_cell i v prog) = length prog.
Proof. apply length_insert. Qed.

(** A key above all the keys of the map goes to its end. *)
Lemma ref_set_above k v (m : list (Z * string)) :
  (forall a tok, (a, tok) ∈ m -> a < k) ->
  ref_set k v m = m ++ [(k, v)].
Proof.
  induction m as [|[k' v'] m IH]; intros H; simpl; [reflexivity|].
  assert (k' < k) by (apply (H k' v'); left).
  destruct (Z.ltb_spec k k'); [lia|].
  destruct (Z.eqb_spec k k'); [lia|].
  rewrite IH; [reflexivity|].
  intros a tok Hin. apply (H a tok). right. exact Hin.
Qed.

(** *** The counter and the diagnostics *)

Lemma count_ok_count_error line e st :
  counted (Diagnostic line e) = true ->
  count_ok st -> count_ok (count_error line e st).
Proof.
  unfold count_ok. simpl. intros Hc H.
  rewrite filter_app, length_app, filter_cons_True by exact Hc.
  simpl. lia.
Qed.

Lemma count_ok_report line e st :
  counted (Diagnostic line e) = false ->
  count_ok st -> count_ok (report line e st).
Proof.
  unfold count_ok. simpl. intros Hc H.
  rewrite filter_app, length_app, filter_cons_False by congruence.
  simpl. lia.
Qed.

Lemma count_ok_same st st' :
  errcount st' = errcount st -> cerr st' = cerr st ->
  count_ok st -> count_ok st'.
Proof. unfold count_ok. intros -> ->. auto. Qed.

Lemma count_ok_emit line k parameter st st' :
  emit line k parameter st = Some st' -> count_ok st -> count_ok st'.
Proof.
  unfold emit. intros He H.
  destruct (program_size <=? g_pc (glob st)).
  { injection He as <-. apply count_ok_report; [reflexivity | exact H]. }
  opcode_cases k; try discriminate; injection He as <-; try exact H;
    unfold emit_plain, emit_ref, emit_dat;
    repeat match goal with
           | |- context [if ?b then _ else _] => destruct b
           end;
    first [ apply count_ok_count_error; [reflexivity | exact H]
          | apply count_ok_report; [reflexivity | exact H]
          | exact H ].
Qed.

Lemma count_ok_process_line line input st st' :
  process_line line input st = Some st' -> count_ok st -> count_ok st'.
Proof.
  unfold process_line. intros Hp H.
  repeat match type of Hp with
         | context [match ?x with _ => _ end] => destruct x
         end;
    first [ injection Hp as <-;
            first [ exact H
                  | apply count_ok_count_error; [reflexivity | exact H] ]
          | apply (count_ok_emit _ _ _ _ _ Hp); exact H ].
Qed.

Lemma count_ok_pass1 lines : forall line st n st',
  pass1 lines line st = Some (n, st') -> count_ok st -> count_ok st'.
Proof.
  induction lines as [|input lines IH]; simpl; intros line st n st' Hp H.
  - injection Hp as _ <-. exact H.
  - destruct (process_line (line + 1) input st) as [st1|] eqn:E;
      [|discriminate].
    apply (IH _ _ _ _ Hp). apply (count_ok_process_line _ _ _ _ E H).
Qed.

Lemma count_ok_add_to_cell addr v st :
  count_ok st -> count_ok (add_to_cell addr v st).
Proof. apply count_ok_same; reflexivity. Qed.

Lemma count_ok_resolve_ref line l st :
  count_ok st -> count_ok (resolve_ref line l st).
Proof.
  intros H. unfold resolve_ref.
  destruct (negb (scan_number (list_ascii_of_string l.2) 0 =? -1)).
  - destruct (999 <? scan_number (list_ascii_of_string l.2) 0).
    + apply count_ok_count_error; [reflexivity | exact H].
    + apply count_ok_add_to_cell, H.
  - destruct (label_pc st !! l.2) as [f|].
    + apply count_ok_add_to_cell. destruct (99 <? f); [|exact H].
      apply count_ok_count_error; [reflexivity | exact H].
    + apply count_ok_count_error; [reflexivity | exact H].
Qed.

Lemma count_ok_pass2 line st : count_ok st -> count_ok (pass2 line st).
Proof.
  unfold pass2. generalize (label_ref st). intros refs. revert st.
  induction refs as [|l refs IH]; simpl; intros st H; [exact H|].
  apply IH, count_ok_resolve_ref, H.
Qed.

(** [parse] fails exactly when the counter is not zero, and the counter
    is the number of counted diagnostics. *)
Lemma parse_fails_iff_counted lines ok st :
  parse lines = Some (ok, st) ->
  count_ok st /\ (ok = false <-> errcount st <> 0).
Proof.
  unfold parse. intros H.
  destruct (pass1 lines 0 initial_asm) as [[n st1]|] eqn:E; [|discriminate].
  injection H as <- <-. split.
  - apply count_ok_pass2, (count_ok_pass1 _ _ _ _ _ E). reflexivity.
  - destruct (Z.eqb_spec (errcount (pass2 n st1)) 0) as [->|N]; simpl.
    + split; [discriminate | congruence].
    + split; auto.
Qed.

(** *** What pass 1 maintains *)

Lemma asm_ok_initial : asm_ok initial_asm.
Proof.
  split; simpl.
  - reflexivity.
  - unfold program_size. lia.
  - intros a tok H. inversion H.
  - constructor.
  - intros name a H. rewrite lookup_empty in H. discriminate.
Qed.

Lemma asm_ok_count_error line e st :
  asm_ok st -> asm_ok (count_error line e st).
Proof. intros []. split; assumption. Qed.

Lemma asm_ok_report line e st : asm_ok st -> asm_ok (report line e st).
Proof. intros []. split; assumption. Qed.

Lemma asm_ok_set_label name st : asm_ok st -> asm_ok (set_label name st).
Proof.
  intros []. split; try assumption. simpl. intros n a H.
  destruct (decide (name = n)) as [->|Hne].
  - rewrite lookup_insert_eq in H. injection H as <-. lia.
  - rewrite lookup_insert_ne in H by exact Hne. eauto.
Qed.

Lemma asm_ok_store_word v st :
  g_pc (glob st) < program_size -> asm_ok st -> asm_ok (store_word v st).
Proof.
  intros Hpc []. split; simpl.
  - rewrite write_cell_length. assumption.
  - lia.
  - intros a tok Hin.
    destruct (ok_refs0 a tok Hin) as (Ha & Htok & opcode & Hop & Hcell).
    split; [lia|]. split; [exact Htok|]. exists opcode.
    split; [exact Hop|]. rewrite read_write_other by lia. exact Hcell.
  - assumption.
  - intros name a H. apply ok_labels0 in H. lia.
Qed.

Lemma asm_ok_store_ref base parameter st :
  g_pc (glob st) < program_size -> parameter <> EmptyString ->
  (exists opcode, 1 <= opcode <= 7 /\ base = opcode * 100) ->
  asm_ok st -> asm_ok (store_ref base parameter st).
Proof.
  intros Hpc Hpar (opcode & Hop & ->) [].
  assert (Habove : forall a tok, (a, tok) ∈ label_ref st ->
                                 a < g_pc (glob st)).
  { intros a tok Hin. apply ok_refs0 in Hin. lia. }
  split; simpl.
  - rewrite write_cell_length. assumption.
  - lia.
  - rewrite (ref_set_above _ _ _ Habove). intros a tok Hin.
    apply elem_of_app in Hin as [Hin|Hin].
    + destruct (ok_refs0 a tok Hin) as (Ha & Htok & oc & Hoc & Hcell).
      split; [lia|]. split; [exact Htok|]. exists oc.
      split; [exact Hoc|]. rewrite read_write_other by lia. exact Hcell.
    + apply list_elem_of_singleton in Hin. injection Hin as -> ->.
      split; [lia|]. split; [exact Hpar|]. exists opcode.
      split; [exact Hop|].
      rewrite read_write_same, wrap16_range by (assumption || lia).
      reflexivity.
  - rewrite (ref_set_above _ _ _ Habove), fmap_app. simpl.
    apply NoDup_app. split; [assumption|]. split; [|apply NoDup_singleton].
    intros a Ha Hb. apply list_elem_of_singleton in Hb. subst a.
    apply list_elem_of_fmap in Ha as ([a tok] & Heq & Hin). simpl in Heq.
    subst a. apply Habove in Hin. lia.
  - intros name a H. apply ok_labels0 in H. lia.
Qed.

Lemma empty_false s : empty s = false -> s <> EmptyString.
Proof. unfold empty. apply String.eqb_neq. Qed.

Lemma asm_ok_emit line k parameter st st' :
  emit line k parameter st = Some st' -> asm_ok st -> asm_ok st'.
Proof.
  unfold emit. intros He H.
  destruct (Z.leb_spec program_size (g_pc (glob st))) as [|Hpc].
  { injection He as <-. apply asm_ok_report, H. }
  opcode_cases k; try discriminate; injection He as <-; try exact H;
    unfold emit_plain, emit_ref, emit_dat;
    destruct (empty parameter) eqn:Hemp; simpl;
    try (apply asm_ok_count_error, H);
    try (apply asm_ok_store_word; [exact Hpc | exact H]);
    try (apply asm_ok_store_ref;
         [ exact Hpc | apply empty_false, Hemp
         | pick_opcode | exact H ]).
  destruct (999 <? atoi parameter);
    [ apply asm_ok_report, H
    | apply asm_ok_store_word; [exact Hpc | exact H] ].
Qed.

Lemma emit_total line k parameter st :
  -1 <= k <= 10 -> k <> MNEMONIC_NONE ->
  is_Some (emit line k parameter st).
Proof.
  unfold emit, MNEMONIC_NONE. intros Hr Hk.
  destruct (program_size <=? g_pc (glob st)); [eexists; reflexivity|].
  opcode_cases k; try (eexists; reflexivity); exfalso; lia.
Qed.

Lemma process_line_total line input st :
  is_Some (process_line line input st).
Proof.
  unfold process_line.
  destruct (split input) as [|w0 rest]; [eexists; reflexivity|].
  destruct (Z.eqb_spec (is_mnemonic w0) MNEMONIC_NONE) as [E|N]; simpl.
  - destruct rest as [|w1 rest]; [eexists; reflexivity|].
    destruct (Z.eqb_spec (is_mnemonic w1) MNEMONIC_NONE) as [E1|N1];
      [eexists; reflexivity|].
    destruct rest as [|w2 [|w3 rest]];
      try (apply emit_total; [apply is_mnemonic_range | exact N1]).
    eexists; reflexivity.
  - destruct rest as [|w1 [|w2 rest]];
      try (apply emit_total; [apply is_mnemonic_range | exact N]).
    eexists; reflexivity.
Qed.

Lemma asm_ok_process_line line input st st' :
  process_line line input st = Some st' -> asm_ok st -> asm_ok st'.
Proof.
  unfold process_line. intros Hp H.
  destruct (split input) as [|w0 rest]; [injection Hp as <-; exact H|].
  destruct (negb (is_mnemonic w0 =? MNEMONIC_NONE)).
  - destruct rest as [|w1 [|w2 rest]];
      try (apply (asm_ok_emit _ _ _ _ _ Hp), H).
    injection Hp as <-. apply asm_ok_count_error, H.
  - destruct rest as [|w1 rest];
      [injection Hp as <-; apply asm_ok_count_error, H|].
    destruct (is_mnemonic w1 =? MNEMONIC_NONE);
      [injection Hp as <-; apply asm_ok_count_error, H|].
    destruct rest as [|w2 [|w3 rest]];
      try (apply (asm_ok_emit _ _ _ _ _ Hp), asm_ok_set_label, H).
    injection Hp as <-. apply asm_ok_count_error, asm_ok_set_label, H.
Qed.

Lemma asm_ok_pass1 lines : forall line st n st',
  pass1 lines line st = Some (n, st') -> asm_ok st -> asm_ok st'.
Proof.
  induction lines as [|input lines IH]; simpl; intros line st n st' Hp H.
  - injection Hp as _ <-. exact H.
  - destruct (process_line (line + 1) input st) as [st1|] eqn:E;
      [|discriminate].
    apply (IH _ _ _ _ Hp), (asm_ok_process_line _ _ _ _ E H).
Qed.

(** Pass 1 never throws, and the line counter ends at the number of
    lines read. *)
Lemma pass1_total lines : forall line st,
  exists st', pass1 lines line st =
              Some (line + Z.of_nat (length lines), st').
Proof.
  induction lines as [|input lines IH]; simpl; intros line st.
  - exists st. f_equal. f_equal. lia.
  - destruct (process_line_total (line + 1) input st) as [st1 ->].
    destruct (IH (line + 1) st1) as [st' ->]. exists st'.
    f_equal. f_equal. lia.
Qed.

Lemma parse_total lines : is_Some (parse lines).
Proof.
  unfold parse. destruct (pass1_total lines 0 initial_asm) as [st ->].
  eexists; reflexivity.
Qed.

(** *** Pass 2 *)

Lemma digit_val_range c : is_digit c = true -> 0 <= digit_val c <= 9.
Proof.
  unfold is_digit, digit_val. intros [H1 H2]%andb_prop.
  apply N.leb_le in H1, H2. lia.
Qed.

Lemma leading_digits_ge cs : forall n,
  forallb is_digit cs = true -> 0 <= n -> n <= leading_digits cs n.
Proof.
  induction cs as [|c cs IH]; simpl; intros n H Hn; [lia|].
  apply andb_prop in H as [Hc Hcs]. rewrite Hc.
  pose proof (digit_val_range c Hc).
  specialize (IH (n * 10 + digit_val c) Hcs). lia.
Qed.

(** On a token with a character that is no digit the scan ends at -1. *)
Lemma scan_number_not_digits cs : forall n,
  forallb is_digit cs = false -> scan_number cs n = -1.
Proof.
  induction cs as [|c cs IH]; simpl; intros n H; [discriminate|].
  destruct (is_digit c); [apply IH, H | reflexivity].
Qed.

(** On digits, and as long as the number fits an [int], the scan yields
    the number the digits denote. *)
Lemma scan_number_digits cs : forall n,
  forallb is_digit cs = true -> 0 <= n ->
  leading_digits cs n <= INT_MAX ->
  scan_number cs n = leading_digits cs n.
Proof.
  induction cs as [|c cs IH]; simpl; intros n H Hn Hmax; [reflexivity|].
  apply andb_prop in H as [Hc Hcs]. rewrite Hc in Hmax |- *.
  pose proof (digit_val_range c Hc) as Hd.
  pose proof (leading_digits_ge cs (n * 10 + digit_val c) Hcs) as Hge.
  replace (n * 10 + Z.of_N (code c) - 48) with (n * 10 + digit_val c)
    by (unfold digit_val; lia).
  rewrite wrap32_small by lia. apply IH; [exact Hcs | lia | exact Hmax].
Qed.

Lemma decimal_nonneg token : all_digits token = true -> 0 <= decimal token.
Proof. intros H. apply (leading_digits_ge _ 0 H). lia. Qed.

Lemma add_to_cell_same addr v x st :
  length (g_program (glob st)) = 100%nat ->
  read_cell addr (g_program (glob st)) = Some x ->
  read_cell addr (g_program (glob (add_to_cell addr v st))) =
  Some (to_short (x + v)).
Proof.
  intros Hlen Hx. unfold add_to_cell. simpl. rewrite Hx.
  apply read_write_same; [exact Hlen|]. apply (read_cell_bounds _ _ _ Hx).
Qed.

Lemma add_to_cell_other a addr v st :
  a <> addr ->
  read_cell a (g_program (glob (add_to_cell addr v st))) =
  read_cell a (g_program (glob st)).
Proof.
  intros Hne. unfold add_to_cell. simpl.
  destruct (read_cell addr (g_program (glob st))) as [x|] eqn:Hx;
    [|reflexivity].
  apply read_write_other; [exact Hne|].
  apply (read_cell_bounds _ _ _ Hx).
Qed.

Lemma add_to_cell_length addr v st :
  length (g_program (glob (add_to_cell addr v st))) =
  length (g_program (glob st)).
Proof.
  unfold add_to_cell. simpl.
  destruct (read_cell addr (g_program (glob st)));
    [apply write_cell_length | reflexivity].
Qed.

(** The loop body of pass 2, case by case. *)

Lemma resolve_ref_number_too_large line addr token st :
  all_digits token = true -> 999 < decimal token <= INT_MAX ->
  resolve_ref line (addr, token) st =
  count_error line (NumberTooLarge token) st.
Proof.
  intros Hd Hv. unfold resolve_ref. simpl.
  rewrite (scan_number_digits _ 0 Hd) by (fold (decimal token); lia).
  fold (decimal token).
  destruct (Z.eqb_spec (decimal token) (-1)); [lia|]. simpl.
  destruct (Z.ltb_spec 999 (decimal token)); [reflexivity | lia].
Qed.

Lemma resolve_ref_number line addr token st :
  all_digits token = true -> decimal token <= 999 ->
  resolve_ref line (addr, token) st = add_to_cell addr (decimal token) st.
Proof.
  intros Hd Hv. pose proof (decimal_nonneg token Hd) as H0.
  unfold resolve_ref. simpl.
  rewrite (scan_number_digits _ 0 Hd)
    by (fold (decimal token); unfold INT_MAX; lia).
  fold (decimal token).
  destruct (Z.eqb_spec (decimal token) (-1)); [lia|]. simpl.
  destruct (Z.ltb_spec 999 (decimal token)); [lia | reflexivity].
Qed.

Lemma resolve_ref_label_not_found line addr token st :
  all_digits token = false -> label_pc st !! token = None ->
  resolve_ref line (addr, token) st =
  count_error line (LabelNotFound token) st.
Proof.
  intros Hd Hl. unfold resolve_ref. simpl.
  rewrite (scan_number_not_digits _ 0 Hd). simpl. rewrite Hl. reflexivity.
Qed.

Lemma resolve_ref_label line addr token a st :
  all_digits token = false -> label_pc st !! token = Some a ->
  resolve_ref line (addr, token) st =
  add_to_cell addr a
    (if 99 <? a then count_error line (OffsetTooLarge token a) st else st).
Proof.
  intros Hd Hl. unfold resolve_ref. simpl.
  rewrite (scan_number_not_digits _ 0 Hd). simpl. rewrite Hl. reflexivity.
Qed.

(** What the loop body leaves alone. *)
Lemma resolve_ref_frame line l st :
  label_pc (resolve_ref line l st) = label_pc st /\
  length (g_program (glob (resolve_ref line l st))) =
    length (g_program (glob st)) /\
  (forall a, a <> l.1 ->
     read_cell a (g_program (glob (resolve_ref line l st))) =
     read_cell a (g_program (glob st))) /\
  (forall d, d ∈ cerr st -> d ∈ cerr (resolve_ref line l st)).
Proof.
  unfold resolve_ref.
  destruct (negb (scan_number (list_ascii_of_string l.2) 0 =? -1)).
  - destruct (999 <? scan_number (list_ascii_of_string l.2) 0).
    + repeat split; simpl; auto. intros d Hd. apply elem_of_app. auto.
    + repeat split; auto using add_to_cell_length, add_to_cell_other.
  - destruct (label_pc st !! l.2) as [f|].
    + destruct (99 <? f).
      * repeat split; auto.
        -- rewrite add_to_cell_length. reflexivity.
        -- intros a Ha. rewrite add_to_cell_other by exact Ha. reflexivity.
        -- intros d Hd. simpl. apply elem_of_app. auto.
      * repeat split; auto using add_to_cell_length, add_to_cell_other.
    + repeat split; simpl; auto. intros d Hd. apply elem_of_app. auto.
Qed.

Lemma resolve_all_frame line refs : forall st,
  let st' := fold_left (fun s l => resolve_ref line l s) refs st in
  label_pc st' = label_pc st /\
  length (g_program (glob st')) = length (g_program (glob st)) /\
  (forall a, a ∉ refs.*1 ->
     read_cell a (g_program (glob st')) =
     read_cell a (g_program (glob st))) /\
  (forall d, d ∈ cerr st -> d ∈ cerr st').
Proof.
  induction refs as [|l refs IH]; simpl; intros st; [auto|].
  destruct (IH (resolve_ref line l st)) as (H1 & H2 & H3 & H4).
  destruct (resolve_ref_frame line l st) as (F1 & F2 & F3 & F4).
  split; [congruence|]. split; [congruence|]. split.
  - intros a Ha. apply not_elem_of_cons in Ha as [Hne Ha].
    rewrite H3 by exact Ha. apply F3, Hne.
  - auto.
Qed.

Lemma counted_positive st d :
  count_ok st -> d ∈ cerr st -> counted d = true -> 0 < errcount st.
Proof.
  unfold count_ok. intros -> Hin Hc.
  assert (d ∈ filter (fun d => counted d = true) (cerr st)) as Hf
    by (apply list_elem_of_filter; auto).
  destruct (filter (fun d => counted d = true) (cerr st));
    [inversion Hf | simpl; lia].
Qed.

End Assembler.

(** X28. Pass 2 on a pending reference (address, token) left by pass 1,
    whose cell holds opcode * 100: an all-digit token denoting a number
    above 999 that an [int] can hold is an error and the cell keeps its base
    value; a token that is not all digits and not in the label table is an
    error and the cell keeps its base value; a label bound to an address
    above 99 is an error and its address is added all the same; in the
    cases not skipped the cell ends at opcode * 100 plus the number or
    address. *)
Theorem pass2_resolution (lines : list string) (n : Z) (st1 : asm)
    (addr : Z) (token : string) :
  pass1 lines 0 initial_asm = Some (n, st1) ->
  (addr, token) ∈ label_ref st1 ->
  exists opcode,
    1 <= opcode <= 7 /\
    read_cell addr (g_program (glob st1)) = Some (opcode * 100) /\
    let st2 := pass2 n st1 in
    let cell := read_cell addr (g_program (glob st2)) in
    (all_digits token = true -> 999 < decimal token <= INT_MAX ->
       Diagnostic n (NumberTooLarge token) ∈ cerr st2 /\
       0 < errcount st2 /\ cell = Some (opcode * 100)) /\
    (all_digits token = true -> decimal token <= 999 ->
       cell = Some (opcode * 100 + decimal token)) /\
    (all_digits token = false -> label_pc st1 !! token = None ->
       Diagnostic n (LabelNotFound token) ∈ cerr st2 /\
       0 < errcount st2 /\ cell = Some (opcode * 100)) /\
    (forall a, all_digits token = false -> label_pc st1 !! token = Some a ->
       cell = Some (opcode * 100 + a) /\
       (99 < a -> Diagnostic n (OffsetTooLarge token a) ∈ cerr st2 /\
                  0 < errcount st2)).
Proof.
  intros Hp1 Hin.
  pose proof (asm_ok_pass1 _ _ _ _ _ Hp1 asm_ok_initial) as Hok.
  assert (Hcnt : count_ok (pass2 n st1)).
  { apply count_ok_pass2, (count_ok_pass1 _ _ _ _ _ Hp1). reflexivity. }
  destruct (ok_refs _ Hok addr token Hin) as (_ & _ & opcode & Hop & Hcell).
  exists opcode. split; [exact Hop|]. split; [exact Hcell|].
  pose proof (ok_keys _ Hok) as Hnd.
  revert Hcnt. unfold pass2.
  apply list_elem_of_split in Hin as (pre & post & Hsplit).
  rewrite Hsplit in Hnd |- *. rewrite fmap_app, fmap_cons in Hnd.
  apply NoDup_app in Hnd as (_ & Hpre & Hpost).
  apply NoDup_cons in Hpost as [Hpost _]. simpl in Hpre, Hpost.
  rewrite fold_left_app. simpl.
  set (sa := fold_left (fun s l => resolve_ref n l s) pre st1).
  destruct (resolve_all_frame n pre st1) as (Hlab & Hlen & Hcells & _).
  fold sa in Hlab, Hlen, Hcells.
  assert (Hcell_a : read_cell addr (g_program (glob sa)) = Some (opcode * 100)).
  { rewrite Hcells; [exact Hcell|]. intros Hx. apply (Hpre addr Hx). left. }
  assert (Hlen_a : length (g_program (glob sa)) = 100%nat).
  { rewrite Hlen. apply (ok_length _ Hok). }
  set (sb := resolve_ref n (addr, token) sa).
  destruct (resolve_all_frame n post sb) as (_ & _ & Hcells' & Hcerr).
  set (st2 := fold_left (fun s l => resolve_ref n l s) post sb) in *.
  intros Hcnt. simpl. rewrite (Hcells' addr Hpost).
  split; [|split; [|split]].
  - intros Hd Hv. unfold sb in *.
    rewrite (resolve_ref_number_too_large _ _ _ _ Hd Hv) in *.
    assert (Diagnostic n (NumberTooLarge token) ∈ cerr st2) as Hdiag.
    { apply Hcerr. simpl. apply elem_of_app. right. left. }
    split; [exact Hdiag|].
    split; [apply (counted_positive _ _ Hcnt Hdiag); reflexivity|].
    exact Hcell_a.
  - intros Hd Hv. unfold sb.
    pose proof (decimal_nonneg token Hd).
    rewrite (resolve_ref_number _ _ _ _ Hd Hv).
    rewrite (add_to_cell_same _ _ _ _ Hlen_a Hcell_a).
    rewrite wrap16_range by lia. reflexivity.
  - intros Hd Hl. unfold sb in *. rewrite <- Hlab in Hl.
    rewrite (resolve_ref_label_not_found _ _ _ _ Hd Hl) in *.
    assert (Diagnostic n (LabelNotFound token) ∈ cerr st2) as Hdiag.
    { apply Hcerr. simpl. apply elem_of_app. right. left. }
    split; [exact Hdiag|].
    split; [apply (counted_positive _ _ Hcnt Hdiag); reflexivity|].
    exact Hcell_a.
  - intros a Hd Hl.
    pose proof (ok_labels _ Hok token a Hl) as Ha.
    pose proof (ok_pc _ Hok) as Hpc. unfold program_size in Hpc.
    unfold sb in *. rewrite <- Hlab in Hl.
    rewrite (resolve_ref_label _ _ _ _ _ Hd Hl) in *.
    split.
    + rewrite (add_to_cell_same _ _ (opcode * 100)).
      * rewrite wrap16_range by lia. reflexivity.
      * destruct (99 <? a); exact Hlen_a.
      * destruct (99 <? a); exact Hcell_a.
    + intros H99.
      assert (Diagnostic n (OffsetTooLarge token a) ∈ cerr st2) as Hdiag.
      { apply Hcerr. destruct (Z.ltb_spec 99 a); [|lia].
        simpl. apply elem_of_app. right. left. }
      split; [exact Hdiag|].
      apply (counted_positive _ _ Hcnt Hdiag). reflexivity.
Qed.

Lemma pass2_resolution_witness :
  let lines := ["loop ADD 5"; "BRA loop"; "SUB 1000"; "LDA nowhere"]%string in
  match pass1 lines 0 initial_asm with
  | Some (n, st1) =>
      (0, "5"%string) ∈ label_ref st1 /\
      all_digits "5" = true /\ decimal "5" <= 999 /\
      exists opcode,
        read_cell 0 (g_program (glob (pass2 n st1))) =
        Some (opcode * 100 + decimal "5")
  | None => False
  end.
Proof.
  intros lines.
  destruct (pass1 lines 0 initial_asm) as [[n st1]|] eqn:E;
    [|vm_compute in E; discriminate].
  assert (Hin : (0, "5"%string) ∈ label_ref st1).
  { vm_compute in E. injection E as _ <-. left. }
  assert (Hv : decimal "5" <= 999) by (vm_compute; discriminate).
  split; [exact Hin|]. split; [reflexivity|]. split; [exact Hv|].
  destruct (pass2_resolution lines n st1 0 "5" E Hin)
    as (opcode & _ & _ & _ & Hnum & _).
  exists opcode. exact (Hnum eq_refl Hv).
Defined.

(** The label of a 101st line is bound to address 100: the reference to it
    is reported, and 100 is added to the cell all the same (BRA becomes
    600). *)
Example offset_too_large_is_added :
  match parse (["BRA end"%string] ++ replicate 99 "OUT"%string
                ++ ["end HLT"%string]) with
  | Some (ok, st) =>
      ok = false /\ errcount st = 1 /\
      cerr st = [Diagnostic 101 ProgramTooLong;
                 Diagnostic 101 (OffsetTooLarge "end" 100)] /\
      read_cell 0 (g_program (glob st)) = Some 600
  | None => False
  end.
Proof.
  destruct (parse (["BRA end"%string] ++ replicate 99 "OUT"%string
                ++ ["end HLT"%string]))
    as [[ok st]|] eqn:E; vm_compute in E; [|discriminate].
  injection E as <- <-. repeat split; reflexivity.
Qed.

(** A number above 999 and a name that is no label: both are counted and
    both cells keep their base value. *)
Example skipped_references :
  match parse ["SUB 1000"; "LDA nowhere"; "HLT"]%string with
  | Some (ok, st) =>
      ok = false /\ errcount st = 2 /\
      cerr st = [Diagnostic 3 (NumberTooLarge "1000");
                 Diagnostic 3 (LabelNotFound "nowhere")] /\
      take 3 (g_program (glob st)) = [200; 400; 0]
  | None => False
  end.
Proof.
  destruct (parse ["SUB 1000"; "LDA nowhere"; "HLT"]%string)
    as [[ok st]|] eqn:E; vm_compute in E; [|discriminate].
  injection E as <- <-. repeat split; reflexivity.
Qed.

Section Capacity.

Implicit Types (st : asm).

Lemma emit_full line k parameter st :
  program_size <= g_pc (glob st) ->
  emit line k parameter st = Some (report line ProgramTooLong st).
Proof.
  intros H. unfold emit.
  destruct (Z.leb_spec program_size (g_pc (glob st))); [reflexivity | lia].
Qed.

(** Whether a mnemonic and its parameter emit a word does not depend on
    the state, as long as there is room. *)
Lemma emit_room l0 k parameter st0 s0 line st :
  g_pc (glob st0) = 0 ->
  emit l0 k parameter st0 = Some s0 -> g_pc (glob s0) = 1 ->
  g_pc (glob st) < program_size ->
  exists st', emit line k parameter st = Some st' /\
    g_pc (glob st') = g_pc (glob st) + 1 /\
    errcount st' = errcount st /\ cerr st' = cerr st /\
    label_pc st' = label_pc st.
Proof.
  unfold emit. intros H0 He H1 Hpc. rewrite H0 in He. simpl in He.
  destruct (Z.leb_spec program_size (g_pc (glob st))); [lia|].
  opcode_cases k; try discriminate; injection He as <-;
    try (exfalso; lia);
    unfold emit_plain, emit_ref, emit_dat in *;
    destruct (empty parameter); simpl in *;
    try (exfalso; lia);
    try (eexists; split; [reflexivity|]; simpl; auto).
  destruct (999 <? atoi parameter); simpl in *; [exfalso; lia|].
  eexists; split; [reflexivity|]; simpl; auto.
Qed.

Lemma line_emits_room line input st :
  line_emits input = true -> g_pc (glob st) < program_size ->
  exists st', process_line line input st = Some st' /\
    g_pc (glob st') = g_pc (glob st) + 1 /\
    errcount st' = errcount st /\ cerr st' = cerr st /\
    (labels_below st -> labels_below st').
Proof.
  unfold line_emits, process_line. intros He Hpc.
  assert (Hsame : forall k parameter s0,
    emit 1 k parameter initial_asm = Some s0 -> g_pc (glob s0) = 1 ->
    exists st', emit line k parameter st = Some st' /\
      g_pc (glob st') = g_pc (glob st) + 1 /\
      errcount st' = errcount st /\ cerr st' = cerr st /\
      (labels_below st -> labels_below st')).
  { intros k parameter s0 H0 H1.
    destruct (emit_room 1 k parameter initial_asm s0 line st eq_refl H0 H1 Hpc)
      as (st' & E & P & C & D & L).
    exists st'. repeat (split; [assumption|]).
    intros Hb name a Ha. rewrite L in Ha. apply Hb in Ha. lia. }
  assert (Hlab : forall w0 k parameter s0,
    emit 1 k parameter (set_label w0 initial_asm) = Some s0 ->
    g_pc (glob s0) = 1 ->
    exists st', emit line k parameter (set_label w0 st) = Some st' /\
      g_pc (glob st') = g_pc (glob st) + 1 /\
      errcount st' = errcount st /\ cerr st' = cerr st /\
      (labels_below st -> labels_below st')).
  { intros w0 k parameter s0 H0 H1.
    destruct (emit_room 1 k parameter (set_label w0 initial_asm) s0 line
                (set_label w0 st) eq_refl H0 H1 Hpc)
      as (st' & E & P & C & D & L).
    exists st'. repeat (split; [assumption|]).
    intros Hb name a Ha. rewrite L in Ha. simpl in Ha, P.
    destruct (decide (w0 = name)) as [->|Hne].
    - rewrite lookup_insert_eq in Ha. injection Ha as <-. lia.
    - rewrite lookup_insert_ne in Ha by exact Hne. apply Hb in Ha. lia. }
  destruct (split input) as [|w0 rest]; [discriminate|].
  destruct (negb (is_mnemonic w0 =? MNEMONIC_NONE)).
  - destruct rest as [|w1 [|w2 rest]]; [| |discriminate];
      match type of He with
      | match ?e with _ => _ end = true =>
          destruct e as [s0|] eqn:E0; [|discriminate]
      end;
      apply Z.eqb_eq in He; exact (Hsame _ _ _ E0 He).
  - destruct rest as [|w1 rest]; [discriminate|].
    destruct (is_mnemonic w1 =? MNEMONIC_NONE); [discriminate|].
    destruct rest as [|w2 [|w3 rest]]; [| |discriminate];
      match type of He with
      | match ?e with _ => _ end = true =>
          destruct e as [s0|] eqn:E0; [|discriminate]
      end;
      apply Z.eqb_eq in He; exact (Hlab _ _ _ _ E0 He).
Qed.

Lemma line_emits_full line input st :
  line_emits input = true -> program_size <= g_pc (glob st) ->
  exists st', process_line line input st = Some st' /\
    cerr st' = cerr st ++ [Diagnostic line ProgramTooLong] /\
    glob st' = glob st /\ label_ref st' = label_ref st /\
    errcount st' = errcount st.
Proof.
  unfold line_emits, process_line. intros He Hpc.
  destruct (split input) as [|w0 rest]; [discriminate|].
  destruct (negb (is_mnemonic w0 =? MNEMONIC_NONE)).
  - destruct rest as [|w1 [|w2 rest]]; [| |discriminate];
      rewrite emit_full by exact Hpc;
      eexists; (split; [reflexivity|]); simpl; auto.
  - destruct rest as [|w1 rest]; [discriminate|].
    destruct (is_mnemonic w1 =? MNEMONIC_NONE); [discriminate|].
    destruct rest as [|w2 [|w3 rest]]; [| |discriminate];
      rewrite emit_full by exact Hpc;
      eexists; (split; [reflexivity|]); simpl; auto.
Qed.

Lemma pass1_app lines1 lines2 : forall line st,
  pass1 (lines1 ++ lines2) line st =
  match pass1 lines1 line st with
  | Some (n, st') => pass1 lines2 n st'
  | None => None
  end.
Proof.
  induction lines1 as [|input lines1 IH]; simpl; intros line st;
    [reflexivity|].
  destruct (process_line (line + 1) input st); [apply IH | reflexivity].
Qed.

(** Lines that all emit, as long as they fit: one word each, no
    diagnostic. *)
Lemma pass1_emitting lines : forall line st,
  Forall (fun l => line_emits l = true) lines ->
  g_pc (glob st) + Z.of_nat (length lines) <= program_size ->
  exists st', pass1 lines line st = Some (line + Z.of_nat (length lines), st') /\
    g_pc (glob st') = g_pc (glob st) + Z.of_nat (length lines) /\
    errcount st' = errcount st /\ cerr st' = cerr st /\
    (labels_below st -> labels_below st').
Proof.
  induction lines as [|input lines IH]; simpl; intros line st Hall Hfit.
  - exists st. split; [do 2 f_equal; lia|]. repeat split; auto. lia.
  - apply Forall_cons in Hall as [Hin Hall].
    destruct (line_emits_room (line + 1) input st Hin)
      as (s1 & -> & P1 & C1 & D1 & L1); [lia|].
    destruct (IH (line + 1) s1 Hall) as (st' & -> & P & C & D & L); [lia|].
    exists st'. split; [do 2 f_equal; lia|].
    split; [lia|]. split; [congruence|]. split; [congruence|]. auto.
Qed.

(** A reference that resolves, to an address of the image when it is a
    label, costs no diagnostic. *)
Lemma resolve_ref_clean line addr token st :
  resolvable (label_pc st) token ->
  (forall a, label_pc st !! token = Some a -> a <= 99) ->
  errcount (resolve_ref line (addr, token) st) = errcount st /\
  cerr (resolve_ref line (addr, token) st) = cerr st.
Proof.
  unfold resolvable. intros Hres Hlab.
  destruct (all_digits token) eqn:Hd.
  - rewrite (resolve_ref_number _ _ _ _ Hd Hres). split; reflexivity.
  - destruct Hres as [a Ha].
    rewrite (resolve_ref_label _ _ _ _ _ Hd Ha).
    specialize (Hlab a Ha). destruct (Z.ltb_spec 99 a); [lia|].
    split; reflexivity.
Qed.

Lemma resolve_all_clean line refs : forall st,
  (forall a tok, (a, tok) ∈ refs -> resolvable (label_pc st) tok) ->
  (forall name a, label_pc st !! name = Some a -> a <= 99) ->
  let st' := fold_left (fun s l => resolve_ref line l s) refs st in
  errcount st' = errcount st /\ cerr st' = cerr st /\
  g_pc (glob st') = g_pc (glob st).
Proof.
  induction refs as [|[addr tok] refs IH]; simpl; intros st Hres Hlab;
    [auto|].
  destruct (resolve_ref_clean line addr tok st) as [E C];
    [apply (Hres addr tok); left | apply Hlab |].
  destruct (resolve_ref_frame line (addr, tok) st) as (L & _).
  destruct (IH (resolve_ref line (addr, tok) st)) as (E' & C' & P').
  - intros a t Hin. rewrite L. apply (Hres a t). right. exact Hin.
  - intros name a. rewrite L. apply Hlab.
  - split; [congruence|]. split; [congruence|]. rewrite P'.
    unfold resolve_ref.
    repeat match goal with
           | |- context [if ?b then _ else _] => destruct b
           | |- context [match ?x with Some _ => _ | None => _ end] =>
               destruct x
           end; reflexivity.
Qed.

End Capacity.

(** C5. Once the assembly counter has reached 100, a line that would emit
    a word gets the capacity diagnostic and leaves the counter, the image
    and the pending references as they are.  So 100 emitting lines are all
    emitted without any diagnostic, and assemble successfully when their
    operands resolve, while a 101st emitting line is reported and not
    emitted. *)
Theorem capacity_limit :
  (forall line input st,
     line_emits input = true -> program_size <= g_pc (glob st) ->
     exists st', process_line line input st = Some st' /\
       cerr st' = cerr st ++ [Diagnostic line ProgramTooLong] /\
       glob st' = glob st /\ label_ref st' = label_ref st) /\
  (forall lines,
     length lines = 100%nat ->
     Forall (fun l => line_emits l = true) lines ->
     exists st1, pass1 lines 0 initial_asm = Some (100, st1) /\
       g_pc (glob st1) = 100 /\ cerr st1 = [] /\ errcount st1 = 0 /\
       ((forall a tok, (a, tok) ∈ label_ref st1 ->
                       resolvable (label_pc st1) tok) ->
        exists st2, parse lines = Some (true, st2) /\ cerr st2 = [] /\
                    g_pc (glob st2) = 100) /\
       (forall extra, line_emits extra = true ->
        exists st1', pass1 (lines ++ [extra]) 0 initial_asm = Some (101, st1') /\
          glob st1' = glob st1 /\ label_ref st1' = label_ref st1 /\
          cerr st1' = [Diagnostic 101 ProgramTooLong])).
Proof.
  split.
  - intros line input st He Hpc.
    destruct (line_emits_full line input st He Hpc)
      as (st' & E & C & G & R & _).
    exists st'. auto.
  - intros lines Hlen Hall.
    destruct (pass1_emitting lines 0 initial_asm Hall) as (st1 & E & P & C & D & L).
    { rewrite Hlen. unfold program_size. simpl. lia. }
    rewrite Hlen in E, P. simpl in P, C, D.
    change (0 + Z.of_nat 100) with 100 in E, P.
    exists st1. split; [exact E|]. split; [exact P|].
    split; [exact D|]. split; [exact C|]. split.
    + intros Hres. unfold parse. rewrite E. cbv zeta. unfold pass2.
      destruct (resolve_all_clean 100 (label_ref st1) st1 Hres)
        as (E2 & C2 & P2).
      { intros name a Ha.
        assert (labels_below st1) as Hb.
        { apply L. intros n0 a0 H0. simpl in H0.
          rewrite lookup_empty in H0. discriminate. }
        apply Hb in Ha. lia. }
      eexists. split; [|split; [rewrite C2; exact D | rewrite P2; exact P]].
      rewrite E2, C. reflexivity.
    + intros extra He. rewrite pass1_app, E. simpl.
      destruct (line_emits_full (100 + 1) extra st1 He)
        as (st' & -> & C' & G & R & _).
      { rewrite P. unfold program_size. lia. }
      exists st'. split; [reflexivity|]. split; [exact G|].
      split; [exact R|]. rewrite C', D. reflexivity.
Qed.

Lemma capacity_limit_witness :
  let lines := replicate 100 "OUT"%string in
  length lines = 100%nat /\
  Forall (fun l => line_emits l = true) lines /\
  line_emits "HLT" = true /\
  (exists st2, parse lines = Some (true, st2) /\ cerr st2 = [] /\
               g_pc (glob st2) = 100) /\
  (exists st1', pass1 (lines ++ ["HLT"%string]) 0 initial_asm = Some (101, st1') /\
                g_pc (glob st1') = 100 /\
                cerr st1' = [Diagnostic 101 ProgramTooLong]).
Proof.
  intros lines.
  assert (Hlen : length lines = 100%nat) by reflexivity.
  assert (Hall : Forall (fun l => line_emits l = true) lines).
  { apply Forall_replicate. reflexivity. }
  assert (He : line_emits "HLT" = true) by reflexivity.
  split; [exact Hlen|]. split; [exact Hall|]. split; [exact He|].
  destruct (proj2 capacity_limit lines Hlen Hall)
    as (st1 & E & P & D & C & Hparse & Hextra).
  split.
  - apply Hparse. intros a tok Hin. exfalso.
    vm_compute in E. injection E as <-. inversion Hin.
  - destruct (Hextra "HLT"%string He) as (st1' & E' & G & _ & C').
    exists st1'. split; [exact E'|]. split; [rewrite G; exact P | exact C'].
Defined.

Lemma add_semantics_witness :
  let m := boot {| g_pc := 0;
                   g_program := [403; 104; 0; 999; 2] ++ replicate 95 0 |} [] in
  read_cell 4 (g_program (mglob m)) = Some 2 /\
  read_cell 3 (g_program (mglob m)) = Some 999 /\
  0 <= acc m + 2 /\
  Z.rem (acc m + 2) 1000 = (acc m + 2) mod 1000 /\
  exists m1 m2,
    dispatch MNEMONIC_LDA 3 m = Continue m1 /\
    dispatch MNEMONIC_ADD 4 m1 = Continue m2 /\
    acc m2 = 1 /\ overflow m2 = true.
Proof.
  intros m.
  assert (H4 : read_cell 4 (g_program (mglob m)) = Some 2) by reflexivity.
  assert (H3 : read_cell 3 (g_program (mglob m)) = Some 999) by reflexivity.
  assert (H0 : 0 <= acc m + 2) by (simpl; lia).
  destruct (add_semantics m 4 2 H4) as (_ & Hmod & _ & Hex).
  split; [exact H4|]. split; [exact H3|]. split; [exact H0|].
  split; [exact (Hmod H0) | exact (Hex 3 H3 eq_refl)].
Defined.

(** A run that has stopped stays stopped when given more turns. *)
Lemma run_more_fuel fuel : forall m o extra,
  run fuel m = o -> (forall m', o <> Continue m') ->
  run (fuel + extra) m = o.
Proof.
  induction fuel as [|fuel IH]; simpl; intros m o extra H Hstop.
  - exfalso. apply (Hstop m). symmetry. exact H.
  - destruct (step m) as [m1| | |] eqn:E; try exact H.
    apply IH; assumption.
Qed.

(** C8. The source INP / STA 99 / LDA 99 / OUT / HLT assembles without
    any error, and its image run on the input 7 prints 7, once, and halts
    (after five turns of the loop, whatever the number of turns allowed
    beyond). *)
Theorem echo_round_trip :
  match parse ["INP"; "STA 99"; "LDA 99"; "OUT"; "HLT"]%string with
  | Some (ok, st) =>
      ok = true /\ errcount st = 0 /\ cerr st = [] /\
      take 5 (g_program (glob st)) = [800; 399; 499; 900; 0] /\
      forall extra : nat,
        exists m, execute (5 + extra) (glob st) [7] = Halt m /\
                  cout m = [7] /\ cin m = []
  | None => False
  end.
Proof.
  destruct (parse ["INP"; "STA 99"; "LDA 99"; "OUT"; "HLT"]%string)
    as [[ok st]|] eqn:E; vm_compute in E; [|discriminate].
  injection E as <- <-.
  split; [reflexivity|]. split; [reflexivity|]. split; [reflexivity|].
  split; [reflexivity|]. intros extra. eexists. split.
  - unfold execute. apply run_more_fuel; [vm_compute; reflexivity|].
    intros m'. discriminate.
  - split; reflexivity.
Qed.

(** C3, on the code: SUB with accumulator 0 on a cell holding 1 raises the
    overflow flag and leaves the accumulator at -1, which OUT prints; the
    claim's value is (0 - 1) mod 1000 = 999. *)
Theorem sub_borrow_goes_negative :
  match lmc 4 ["LDA zero"; "SUB one"; "OUT"; "HLT";
               "zero DAT 0"; "one DAT 1"]%string [] with
  | Executed (Halt m) =>
      acc m = -1 /\ overflow m = true /\ cout m = [-1] /\
      (0 - 1) mod 1000 = 999
  | _ => False
  end.
Proof. vm_compute. repeat split; reflexivity. Qed.

(** C10, on the code: a program assembled without any diagnostic stores
    OUT in cell 99 and branches to it; after that turn the program counter
    is 100 and the next fetch reads [g_program[100]].  The same happens at
    the end of 100 lines of OUT. *)
Theorem fetch_past_the_image :
  match parse ["LDA 3"; "STA 99"; "BRA 99"; "DAT 900"]%string with
  | Some (ok, st) =>
      ok = true /\ cerr st = [] /\
      exists m, execute 5 (glob st) [] = OutOfBounds 100 m /\ cout m = [900]
  | None => False
  end /\
  match parse (replicate 100 "OUT"%string) with
  | Some (ok, st) =>
      ok = true /\ cerr st = [] /\
      exists m, execute 101 (glob st) [] = OutOfBounds 100 m
  | None => False
  end.
Proof.
  split.
  - destruct (parse ["LDA 3"; "STA 99"; "BRA 99"; "DAT 900"]%string)
      as [[ok st]|] eqn:E; vm_compute in E; [|discriminate].
    injection E as <- <-. split; [reflexivity|]. split; [reflexivity|].
    eexists. split; [vm_compute; reflexivity | reflexivity].
  - destruct (parse (replicate 100 "OUT"%string))
      as [[ok st]|] eqn:E; vm_compute in E; [|discriminate].
    injection E as <- <-. split; [reflexivity|]. split; [reflexivity|].
    eexists. vm_compute. reflexivity.
Qed.

(** C1, on the code: programs assembled without any diagnostic whose image
    leaves the range.  [DAT -1] stores -1; [ADD 999] resolves to 1099; and
    an image that is in range after assembly has -1 stored in it by SUB and
    STA. *)
Theorem cells_leave_the_range :
  match parse ["DAT -1"]%string with
  | Some (ok, st) =>
      ok = true /\ cerr st = [] /\
      read_cell 0 (g_program (glob st)) = Some (-1)
  | None => False
  end /\
  match parse ["ADD 999"]%string with
  | Some (ok, st) =>
      ok = true /\ cerr st = [] /\
      read_cell 0 (g_program (glob st)) = Some 1099
  | None => False
  end /\
  match parse ["SUB one"; "STA one"; "HLT"; "one DAT 1"]%string with
  | Some (ok, st) =>
      ok = true /\ cerr st = [] /\
      forallb (fun c => (0 <=? c) && (c <=? 999)) (g_program (glob st)) = true /\
      exists m, execute 3 (glob st) [] = Halt m /\
                read_cell 3 (g_program (mglob m)) = Some (-1)
  | None => False
  end.
Proof.
  split; [|split].
  - destruct (parse ["DAT -1"]%string) as [[ok st]|] eqn:E;
      vm_compute in E; [|discriminate].
    injection E as <- <-. repeat split; reflexivity.
  - destruct (parse ["ADD 999"]%string) as [[ok st]|] eqn:E;
      vm_compute in E; [|discriminate].
    injection E as <- <-. repeat split; reflexivity.
  - destruct (parse ["SUB one"; "STA one"; "HLT"; "one DAT 1"]%string)
      as [[ok st]|] eqn:E; vm_compute in E; [|discriminate].
    injection E as <- <-. split; [reflexivity|]. split; [reflexivity|].
    split; [reflexivity|]. eexists. split; [vm_compute; reflexivity|].
    reflexivity.
Qed.

(** C2, on the code: the DAT range error and the capacity error are
    reported without [++errcount]; with no other error [parse] returns
    true and [main] goes on to [execute]. *)
Theorem uncounted_diagnostics :
  match parse ["DAT 1000"]%string with
  | Some (ok, st) =>
      ok = true /\ errcount st = 0 /\ cerr st = [Diagnostic 1 DatOutOfRange]
  | None => False
  end /\
  match parse (replicate 101 "HLT"%string) with
  | Some (ok, st) =>
      ok = true /\ errcount st = 0 /\
      cerr st = [Diagnostic 101 ProgramTooLong]
  | None => False
  end /\
  exists m, lmc 1 ["DAT 1000"]%string [] = Executed (Halt m).
Proof.
  split; [|split].
  - destruct (parse ["DAT 1000"]%string) as [[ok st]|] eqn:E;
      vm_compute in E; [|discriminate].
    injection E as <- <-. repeat split; reflexivity.
  - destruct (parse (replicate 101 "HLT"%string)) as [[ok st]|] eqn:E;
      vm_compute in E; [|discriminate].
    injection E as <- <-. repeat split; reflexivity.
  - eexists. vm_compute. reflexivity.
Qed.

(** * Further properties of the code *)

(** ** [split] and [is_mnemonic] *)

Section Words.

Import TokenizerSpec.

Lemma comment_not_nul c : is_comment c = true -> is_nul c = false.
Proof.
  unfold is_comment, is_nul. intros H.
  destruct (N.eqb_spec (code c) 0) as [E|]; [|reflexivity].
  rewrite E in H. vm_compute in H. discriminate.
Qed.

Lemma c_str_no_nul s : Forall (fun c => is_nul c = false) (c_str s).
Proof.
  induction s as [|c s IH]; simpl; [constructor|].
  destruct (is_nul c) eqn:E; constructor; assumption.
Qed.

Lemma skip_space_suffix s : exists p, s = p ++ skip_space s.
Proof.
  induction s as [|c s [p IH]]; simpl; [exists []; reflexivity|].
  destruct (isspace c).
  - exists (c :: p). simpl. rewrite <- IH. reflexivity.
  - exists []. reflexivity.
Qed.

Lemma skip_space_head s c r : skip_space s = c :: r -> isspace c = false.
Proof.
  induction s as [|d s IH]; simpl; [discriminate|].
  destruct (isspace d) eqn:E; [exact IH|].
  intros H. injection H as -> _. exact E.
Qed.

Lemma scan_word_split s w r : scan_word s = (w, r) -> s = w ++ r.
Proof.
  revert w r. induction s as [|c s IH]; simpl; intros w r H.
  - injection H as <- <-. reflexivity.
  - destruct (isspace c || is_comment c).
    + injection H as <- <-. reflexivity.
    + destruct (scan_word s) as [w' r'] eqn:E. injection H as <- <-.
      simpl. rewrite (IH w' r' eq_refl). reflexivity.
Qed.

Lemma scan_word_chars s w r :
  scan_word s = (w, r) ->
  Forall (fun c => isspace c = false /\ is_comment c = false) w.
Proof.
  revert w r. induction s as [|c s IH]; simpl; intros w r H.
  - injection H as <- <-. constructor.
  - destruct (isspace c) eqn:Hs; simpl in H.
    + injection H as <- <-. constructor.
    + destruct (is_comment c) eqn:Hc.
      * injection H as <- <-. constructor.
      * destruct (scan_word s) as [w' r'] eqn:E. injection H as <- <-.
        constructor; [auto | apply (IH w' r' eq_refl)].
Qed.

Lemma list_ascii_of_string_app a b :
  list_ascii_of_string (a +:+ b) =
  list_ascii_of_string a ++ list_ascii_of_string b.
Proof. induction a as [|c a IH]; simpl; [reflexivity | rewrite IH; reflexivity]. Qed.

Lemma split_loop_clean fuel : forall s words,
  Forall (fun c => is_nul c = false) s ->
  Forall token_ok words -> Forall token_ok (split_loop fuel s words).
Proof.
  induction fuel as [|fuel IH]; simpl; intros s words Hnul Hw; [exact Hw|].
  destruct (skip_space_suffix s) as [p Hp].
  destruct (skip_space s) as [|c s1] eqn:Es; [exact Hw|].
  pose proof (skip_space_head _ _ _ Es) as Hsp.
  destruct (is_comment c) eqn:Hcm; [exact Hw|].
  rewrite Hp in Hnul. apply Forall_app in Hnul as [_ Hnul].
  rewrite Hsp. simpl.
  destruct (scan_word s1) as [w' r'] eqn:E.
  pose proof (scan_word_split _ _ _ E) as Hs1.
  pose proof (scan_word_chars _ _ _ E) as Hch.
  apply Forall_cons in Hnul as [Hc Hnul1]. rewrite Hs1 in Hnul1.
  apply Forall_app in Hnul1 as [Hw' Hr'].
  apply IH; [exact Hr'|].
  apply Forall_app. split; [exact Hw|]. constructor; [|constructor].
  split; [discriminate|].
  rewrite list_ascii_of_string_of_list_ascii. simpl.
  unfold word_char at 1. rewrite Hc, Hsp, Hcm. simpl.
  apply forallb_forall. intros x Hx. apply list_elem_of_In in Hx.
  unfold word_char.
  rewrite (proj1 (Forall_forall _ _) Hw' x Hx).
  destruct (proj1 (Forall_forall _ _) Hch x Hx) as [-> ->]. reflexivity.
Qed.

Lemma before_comment_cut a c b :
  is_comment c = true ->
  before_comment (c_str (a ++ c :: b)) = before_comment (c_str a).
Proof.
  intros Hc. induction a as [|x a IH]; simpl.
  - rewrite (comment_not_nul c Hc). simpl. rewrite Hc. reflexivity.
  - destruct (is_nul x); [reflexivity|]. simpl.
    destruct (is_comment x); [reflexivity|]. rewrite IH. reflexivity.
Qed.

Lemma upper_char_idem c : upper_char (upper_char c) = upper_char c.
Proof. destruct c as [[] [] [] [] [] [] [] []]; reflexivity. Qed.

Lemma upper_idem w : upper (upper w) = upper w.
Proof.
  induction w as [|c w IH]; simpl; [reflexivity|].
  rewrite upper_char_idem, IH. reflexivity.
Qed.

Lemma upper_length w : String.length (upper w) = String.length w.
Proof. induction w as [|c w IH]; simpl; [reflexivity | rewrite IH; reflexivity]. Qed.

End Words.

(** X1. Every token [split] returns is non-empty and holds no NUL, no
    whitespace and no comment character. *)
Theorem split_words_clean (input w : string) :
  w ∈ split input ->
  w <> EmptyString /\ forallb word_char (list_ascii_of_string w) = true.
Proof.
  intros Hin. unfold split in Hin.
  pose proof (split_loop_clean
                (S (length (c_str (list_ascii_of_string input))))
                (c_str (list_ascii_of_string input)) []
                (c_str_no_nul _) (Forall_nil_2 _)) as H.
  exact (proj1 (Forall_forall _ _) H w Hin).
Qed.

Lemma split_words_clean_witness :
  "one"%string ∈ split "loop ADD one;two" /\
  forallb word_char (list_ascii_of_string "one") = true.
Proof.
  assert (Hin : "one"%string ∈ split "loop ADD one;two")
    by (vm_compute; right; right; left).
  split; [exact Hin | exact (proj2 (split_words_clean _ _ Hin))].
Defined.

(** X2. What follows a comment character never reaches the tokens: cutting
    the line at a '#', '/' or ';' gives the same result. *)
Theorem split_ignores_comment_text (a b : string) (c : ascii) :
  is_comment c = true -> split (a +:+ String c b) = split a.
Proof.
  intros Hc. rewrite !split_c_str, list_ascii_of_string_app. simpl.
  rewrite (before_comment_cut _ _ _ Hc). reflexivity.
Qed.

Lemma split_ignores_comment_text_witness :
  is_comment "/" = true /\
  split ("x STA 9" +:+ String "/" "/ store") = split "x STA 9".
Proof.
  split; [reflexivity|].
  exact (split_ignores_comment_text "x STA 9" "/ store" "/" eq_refl).
Defined.

(** X3. [split] returns no token exactly when the C string of the line
    has only whitespace before its end or before a comment character:
    these are the lines pass 1 passes over. *)
Theorem split_empty_iff (input : string) :
  split input = [] <->
  match skip_space (c_str (list_ascii_of_string input)) with
  | [] => True
  | c :: _ => is_comment c = true
  end.
Proof.
  unfold split.
  set (s := c_str (list_ascii_of_string input)).
  change (split_loop (S (length s)) s [])
    with (match skip_space s with
          | [] => []
          | (c :: _) as s1 =>
              if is_comment c then []
              else let '(w, s2) := scan_word s1 in
                   split_loop (length s) s2 ([] ++ [string_of_list_ascii w])
          end).
  pose proof (skip_space_length s) as Hk.
  destruct (skip_space s) as [|c s1] eqn:Es; [tauto|].
  destruct (is_comment c) eqn:Hc; [tauto|].
  destruct (scan_word (c :: s1)) as [w s2] eqn:Ew.
  pose proof (scan_word_length _ _ _ Ew) as Hl. simpl in Hl, Hk.
  assert (Hw : (0 < length w)%nat).
  { simpl in Ew. rewrite (skip_space_head _ _ _ Es), Hc in Ew. simpl in Ew.
    destruct (scan_word s1). injection Ew as <- _. simpl. lia. }
  rewrite split_loop_words by lia.
  split; [|discriminate]. simpl. discriminate.
Qed.

(** X4. [is_mnemonic] returns the value of the name its argument spells
    once put in upper case, and -1 when it spells none; a word it accepts
    has three characters, and the case of the letters does not count. *)
Theorem is_mnemonic_names (w : string) :
  ((is_mnemonic w = MNEMONIC_NONE /\
    forall k, mnemonic_name k <> Some (upper w)) \/
   (0 <= is_mnemonic w <= 10 /\
    mnemonic_name (is_mnemonic w) = Some (upper w) /\
    String.length w = 3%nat)) /\
  is_mnemonic (upper w) = is_mnemonic w.
Proof.
  split; [|unfold is_mnemonic; rewrite upper_idem; reflexivity].
  rewrite <- (upper_length w). unfold is_mnemonic.
  repeat match goal with
         | |- context [String.eqb ?a ?b] =>
             destruct (String.eqb_spec a b) as [E|]
         end;
    try (right; rewrite E;
         split; [vm_compute; split; discriminate|];
         split; reflexivity).
  left. split; [reflexivity|]. intros k Hk.
  opcode_cases k; simpl in Hk; try discriminate;
    injection Hk as Hk; congruence.
Qed.

(** ** Pass 1, line by line *)

Section Lines.

Implicit Types (st : asm).

Lemma emit_label_pc line k parameter st st' :
  emit line k parameter st = Some st' -> label_pc st' = label_pc st.
Proof.
  unfold emit. intros He.
  destruct (program_size <=? g_pc (glob st)); [injection He as <-; reflexivity|].
  opcode_cases k; try discriminate; injection He as <-; try reflexivity;
    unfold emit_plain, emit_ref, emit_dat;
    repeat match goal with
           | |- context [if ?b then _ else _] => destruct b
           end; reflexivity.
Qed.

(** The [switch]: a word is emitted at [g_pc] without any message, or
    nothing is emitted. *)
Lemma emit_effect line k parameter st st' :
  0 <= g_pc (glob st) ->
  emit line k parameter st = Some st' ->
  (glob st' = glob st /\ label_ref st' = label_ref st) \/
  (g_pc (glob st') = g_pc (glob st) + 1 /\ g_pc (glob st) < program_size /\
   cerr st' = cerr st /\ errcount st' = errcount st /\
   length (g_program (glob st')) = length (g_program (glob st)) /\
   forall i, i <> g_pc (glob st) ->
     read_cell i (g_program (glob st')) = read_cell i (g_program (glob st))).
Proof.
  unfold emit. intros H0 He.
  destruct (Z.leb_spec program_size (g_pc (glob st)));
    [injection He as <-; left; split; reflexivity|].
  assert (Hword : forall v, let s := store_word v st in
    g_pc (glob s) = g_pc (glob st) + 1 /\ g_pc (glob st) < program_size /\
    cerr s = cerr st /\ errcount s = errcount st /\
    length (g_program (glob s)) = length (g_program (glob st)) /\
    forall i, i <> g_pc (glob st) ->
      read_cell i (g_program (glob s)) = read_cell i (g_program (glob st))).
  { intros v. simpl. repeat split; try assumption.
    - apply write_cell_length.
    - intros i Hi. apply read_write_other; assumption. }
  assert (Href : forall v p, let s := store_ref v p st in
    g_pc (glob s) = g_pc (glob st) + 1 /\ g_pc (glob st) < program_size /\
    cerr s = cerr st /\ errcount s = errcount st /\
    length (g_program (glob s)) = length (g_program (glob st)) /\
    forall i, i <> g_pc (glob st) ->
      read_cell i (g_program (glob s)) = read_cell i (g_program (glob st))).
  { intros v p. simpl. repeat split; try assumption.
    - apply write_cell_length.
    - intros i Hi. apply read_write_other; assumption. }
  opcode_cases k; try discriminate; injection He as <-;
    try (left; split; reflexivity);
    unfold emit_plain, emit_ref, emit_dat;
    repeat match goal with
           | |- context [if ?b then _ else _] => destruct b
           end;
    first [ left; split; reflexivity
          | right; apply Hword | right; apply Href ].
Qed.

Lemma process_line_effect line input st st' :
  0 <= g_pc (glob st) ->
  process_line line input st = Some st' ->
  (glob st' = glob st /\ label_ref st' = label_ref st) \/
  (g_pc (glob st') = g_pc (glob st) + 1 /\ g_pc (glob st) < program_size /\
   cerr st' = cerr st /\ errcount st' = errcount st /\
   length (g_program (glob st')) = length (g_program (glob st)) /\
   forall i, i <> g_pc (glob st) ->
     read_cell i (g_program (glob st')) = read_cell i (g_program (glob st))).
Proof.
  unfold process_line. intros H0 Hp.
  destruct (split input) as [|w0 rest];
    [injection Hp as <-; left; split; reflexivity|].
  destruct (negb (is_mnemonic w0 =? MNEMONIC_NONE)).
  - destruct rest as [|w1 [|w2 rest]];
      try (apply (emit_effect _ _ _ _ _ H0 Hp)).
    injection Hp as <-. left; split; reflexivity.
  - destruct rest as [|w1 rest];
      [injection Hp as <-; left; split; reflexivity|].
    destruct (is_mnemonic w1 =? MNEMONIC_NONE);
      [injection Hp as <-; left; split; reflexivity|].
    destruct rest as [|w2 [|w3 rest]];
      try (apply (emit_effect _ _ _ (set_label w0 st) _ H0 Hp)).
    injection Hp as <-. left; split; reflexivity.
Qed.

Lemma tail_zero_initial : tail_zero initial_asm.
Proof.
  intros i Hi. change (g_pc (glob initial_asm)) with 0 in Hi.
  change (g_program (glob initial_asm)) with (replicate 100 0).
  unfold read_cell, program_size in *.
  destruct (Z.leb_spec 0 i), (Z.ltb_spec i 100); try lia.
  cbn [andb]. apply lookup_replicate_2. lia.
Qed.

Lemma tail_zero_process_line line input st st' :
  0 <= g_pc (glob st) ->
  process_line line input st = Some st' -> tail_zero st -> tail_zero st'.
Proof.
  intros H0 Hp Hz.
  destruct (process_line_effect _ _ _ _ H0 Hp)
    as [[Hg _] | (Hpc & _ & _ & _ & _ & Hcells)].
  - unfold tail_zero. rewrite Hg. exact Hz.
  - intros i Hi. rewrite Hcells by lia. apply Hz. lia.
Qed.

Lemma pass1_steps lines : forall line st n st',
  asm_ok st -> pass1 lines line st = Some (n, st') ->
  g_pc (glob st) <= g_pc (glob st') <= g_pc (glob st) + Z.of_nat (length lines) /\
  (tail_zero st -> tail_zero st').
Proof.
  induction lines as [|input lines IH]; simpl; intros line st n st' Hok Hp.
  - injection Hp as _ <-. split; [lia | auto].
  - destruct (process_line (line + 1) input st) as [s1|] eqn:E;
      [|discriminate].
    pose proof (ok_pc _ Hok) as [H0 _].
    destruct (IH _ _ _ _ (asm_ok_process_line _ _ _ _ E Hok) Hp) as [Hr Hz].
    split.
    + destruct (process_line_effect _ _ _ _ H0 E) as [[Hg _] | (Hpc & _)];
        [rewrite Hg in Hr|]; lia.
    + intros Hz0. apply Hz, (tail_zero_process_line _ _ _ _ H0 E Hz0).
Qed.

Lemma resolve_ref_keeps line l st :
  g_pc (glob (resolve_ref line l st)) = g_pc (glob st) /\
  label_ref (resolve_ref line l st) = label_ref st /\
  cerr st `prefix_of` cerr (resolve_ref line l st).
Proof.
  unfold resolve_ref.
  destruct (negb (scan_number (list_ascii_of_string l.2) 0 =? -1)).
  - destruct (999 <? scan_number (list_ascii_of_string l.2) 0);
      simpl; repeat split; try reflexivity; apply prefix_app_r; reflexivity.
  - destruct (label_pc st !! l.2) as [f|].
    + destruct (99 <? f); simpl; repeat split; try reflexivity;
        apply prefix_app_r; reflexivity.
    + simpl. repeat split; apply prefix_app_r; reflexivity.
Qed.

Lemma resolve_all_keeps line refs : forall st,
  let st' := fold_left (fun s l => resolve_ref line l s) refs st in
  g_pc (glob st') = g_pc (glob st) /\ label_ref st' = label_ref st /\
  cerr st `prefix_of` cerr st'.
Proof.
  induction refs as [|l refs IH]; simpl; intros st; [repeat split; reflexivity|].
  destruct (IH (resolve_ref line l st)) as (H1 & H2 & H3).
  destruct (resolve_ref_keeps line l st) as (K1 & K2 & K3).
  split; [congruence|]. split; [congruence|]. etransitivity; eassumption.
Qed.

Lemma tail_zero_parse lines ok st :
  parse lines = Some (ok, st) -> tail_zero st.
Proof.
  unfold parse. intros H.
  destruct (pass1 lines 0 initial_asm) as [[n st1]|] eqn:E; [|discriminate].
  injection H as _ <-.
  pose proof (asm_ok_pass1 _ _ _ _ _ E asm_ok_initial) as Hok.
  destruct (pass1_steps _ _ _ _ _ asm_ok_initial E) as [_ Hz].
  specialize (Hz tail_zero_initial). unfold pass2.
  destruct (resolve_all_keeps n (label_ref st1) st1) as (Hpc & _).
  destruct (resolve_all_frame n (label_ref st1) st1) as (_ & _ & Hcells & _).
  intros i Hi. rewrite Hpc in Hi. rewrite Hcells; [apply Hz, Hi|].
  intros Hin. apply list_elem_of_fmap in Hin as ([a tok] & -> & Hin).
  apply (ok_refs _ Hok) in Hin. simpl in Hi. lia.
Qed.

End Lines.

(** X5. Pass 1 returns on every source, from every state: the
    [std::logic_error] of the case MNEMONIC_NONE is never thrown, and the
    line counter ends at the number of lines read. *)
Theorem logic_error_unreachable (lines : list string) (line : Z) (st : asm) :
  exists st',
    pass1 lines line st = Some (line + Z.of_nat (length lines), st').
Proof. apply pass1_total. Qed.

(** X6. On every source [parse] returns; the error counter it ends with
    is the number of diagnostics other than the capacity and the DAT range
    ones, and the value returned is true exactly when the counter is 0. *)
Theorem errcount_is_counted (lines : list string) :
  match parse lines with
  | Some (ok, st) =>
      errcount st =
        Z.of_nat (length (filter (fun d => counted d = true) (cerr st))) /\
      (ok = true <-> errcount st = 0)
  | None => False
  end.
Proof.
  destruct (parse_total lines) as [[ok st] H]. rewrite H.
  destruct (parse_fails_iff_counted lines ok st H) as [Hc Hiff].
  split; [exact Hc|]. destruct Hiff as [Hf Hb]. destruct ok.
  - split; [|reflexivity]. intros _.
    destruct (Z.eq_dec (errcount st) 0) as [E|N]; [exact E|].
    discriminate (Hb N).
  - split; [discriminate|]. intros E. exfalso. exact (Hf eq_refl E).
Qed.

(** X7. After pass 1 of any source: the image has 100 cells; the counter
    is between 0 and 100 and at most the number of lines; every pending
    reference sits at an address below the counter whose cell holds
    opcode * 100 for an opcode from 1 to 7; no address is pending twice;
    every label is bound to an address between 0 and the counter. *)
Theorem pass1_invariants (lines : list string) (n : Z) (st : asm) :
  pass1 lines 0 initial_asm = Some (n, st) ->
  asm_ok st /\ g_pc (glob st) <= Z.of_nat (length lines).
Proof.
  intros H. split; [apply (asm_ok_pass1 _ _ _ _ _ H asm_ok_initial)|].
  destruct (pass1_steps _ _ _ _ _ asm_ok_initial H) as [Hr _].
  simpl in Hr. lia.
Qed.

Lemma pass1_invariants_witness :
  match pass1 ["loop ADD one"; "BRA loop"; "one DAT 1"]%string 0 initial_asm with
  | Some (n, st) => asm_ok st /\ g_pc (glob st) <= 3
  | None => False
  end.
Proof.
  destruct (pass1 ["loop ADD one"; "BRA loop"; "one DAT 1"]%string 0 initial_asm)
    as [[n st]|] eqn:E; [|vm_compute in E; discriminate].
  exact (pass1_invariants _ n st E).
Defined.

(** X8. A line either emits exactly one word, at the counter and without
    any message, or emits nothing: the counter, the image and the pending
    references stay as they are.  In particular a line with an error never
    reaches the image. *)
Theorem line_emits_one_word_or_nothing (line : Z) (input : string)
    (st st' : asm) :
  0 <= g_pc (glob st) ->
  process_line line input st = Some st' ->
  (glob st' = glob st /\ label_ref st' = label_ref st) \/
  (g_pc (glob st') = g_pc (glob st) + 1 /\ g_pc (glob st) < program_size /\
   cerr st' = cerr st /\ errcount st' = errcount st /\
   length (g_program (glob st')) = length (g_program (glob st)) /\
   forall i, i <> g_pc (glob st) ->
     read_cell i (g_program (glob st')) = read_cell i (g_program (glob st))).
Proof. apply process_line_effect. Qed.

Lemma line_emits_one_word_or_nothing_witness :
  exists st',
    process_line 1 "HLT 5" initial_asm = Some st' /\
    glob st' = glob initial_asm.
Proof.
  destruct (process_line 1 "HLT 5" initial_asm) as [st'|] eqn:E;
    [|vm_compute in E; discriminate].
  exists st'. split; [reflexivity|].
  destruct (line_emits_one_word_or_nothing 1 "HLT 5" initial_asm st'
              ltac:(simpl; lia) E) as [[Hg _] | (Hpc & _ & Hc & _)];
    [exact Hg|].
  exfalso. vm_compute in E. injection E as <-. discriminate Hc.
Defined.

(** X9. After [parse], whatever it returns, every cell from the assembly
    counter to the end of the image still holds 0, the encoding of HLT. *)
Theorem unused_cells_hold_zero (lines : list string) (ok : bool) (st : asm)
    (i : Z) :
  parse lines = Some (ok, st) ->
  g_pc (glob st) <= i < program_size ->
  read_cell i (g_program (glob st)) = Some 0.
Proof. intros H. apply (tail_zero_parse lines ok st H). Qed.

Lemma unused_cells_hold_zero_witness :
  match parse ["INP"; "OUT"]%string with
  | Some (ok, st) =>
      g_pc (glob st) <= 2 < program_size /\
      read_cell 2 (g_program (glob st)) = Some 0
  | None => False
  end.
Proof.
  destruct (parse ["INP"; "OUT"]%string) as [[ok st]|] eqn:E;
    [|vm_compute in E; discriminate].
  assert (Hr : g_pc (glob st) <= 2 < program_size).
  { vm_compute in E. injection E as _ <-. vm_compute. split; [discriminate | reflexivity]. }
  split; [exact Hr | exact (unused_cells_hold_zero _ ok st 2 E Hr)].
Defined.

(** X10. The label of a line is bound to the counter as soon as its second
    word is seen to be a mnemonic: before the count of the words, the
    capacity check and the check of the parameter, over any earlier binding
    of the same name, and without any message.  No other line changes the
    label table. *)
Theorem label_bound_before_checks (line : Z) (input : string) (st st' : asm) :
  process_line line input st = Some st' ->
  match split input with
  | w0 :: w1 :: _ =>
      if (is_mnemonic w0 =? MNEMONIC_NONE)
         && negb (is_mnemonic w1 =? MNEMONIC_NONE)
      then label_pc st' = <[w0 := g_pc (glob st)]> (label_pc st)
      else label_pc st' = label_pc st
  | _ => label_pc st' = label_pc st
  end.
Proof.
  unfold process_line. intros Hp.
  destruct (split input) as [|w0 rest]; [injection Hp as <-; reflexivity|].
  destruct (is_mnemonic w0 =? MNEMONIC_NONE); simpl in *.
  - destruct rest as [|w1 rest]; [injection Hp as <-; reflexivity|].
    destruct (is_mnemonic w1 =? MNEMONIC_NONE); simpl;
      [injection Hp as <-; reflexivity|].
    destruct rest as [|w2 [|w3 rest]];
      try (rewrite (emit_label_pc _ _ _ _ _ Hp); reflexivity).
    injection Hp as <-. reflexivity.
  - destruct rest as [|w1 [|w2 rest]];
      try (rewrite (emit_label_pc _ _ _ _ _ Hp); reflexivity).
    injection Hp as <-. reflexivity.
Qed.

Lemma label_bound_before_checks_witness :
  exists st',
    process_line 1 "here ADD 1 2" initial_asm = Some st' /\
    label_pc st' !! "here"%string = Some 0 /\
    cerr st' = [Diagnostic 1 TooManyParameters].
Proof.
  destruct (process_line 1 "here ADD 1 2" initial_asm) as [st'|] eqn:E;
    [|vm_compute in E; discriminate].
  exists st'. split; [reflexivity|].
  pose proof (label_bound_before_checks 1 "here ADD 1 2" initial_asm st' E)
    as H.
  change (label_pc st' = <["here"%string := 0]> ∅) in H.
  split; [rewrite H; apply lookup_insert_eq|].
  vm_compute in E. injection E as <-. reflexivity.
Defined.

(** ** [atoi] and the DAT case *)

Section Atoi.

Lemma wrap32_range x : -2147483648 <= x <= INT_MAX -> wrap32 x = x.
Proof.
  unfold INT_MAX. intros H. unfold wrap32, wrap.
  change (2 ^ 32) with 4294967296. change (2 ^ (32 - 1)) with 2147483648.
  destruct (Z.ltb_spec (x mod 4294967296) 2147483648);
    Z.to_euclidean_division_equations; lia.
Qed.

Lemma digit_plain c :
  is_digit c = true ->
  is_nul c = false /\ isspace c = false /\
  c <> "-"%char /\ c <> "+"%char.
Proof.
  destruct c as [[] [] [] [] [] [] [] []]; intros H;
    try discriminate H; repeat split; discriminate.
Qed.

Lemma c_str_digits d r :
  forallb is_digit d = true -> c_str (d ++ r) = d ++ c_str r.
Proof.
  induction d as [|c d IH]; simpl; intros H; [reflexivity|].
  apply andb_prop in H as [Hc Hd].
  destruct (digit_plain c Hc) as (-> & _). rewrite IH by exact Hd. reflexivity.
Qed.

Lemma leading_digits_app d r : forall n,
  forallb is_digit d = true ->
  match r with [] => True | c :: _ => is_digit c = false end ->
  leading_digits (d ++ r) n = leading_digits d n.
Proof.
  induction d as [|c d IH]; simpl; intros n Hd Hr.
  - destruct r as [|c r]; [reflexivity|]. simpl. rewrite Hr. reflexivity.
  - apply andb_prop in Hd as [Hc Hd]. rewrite Hc. apply IH; assumption.
Qed.

Lemma c_str_head_not_digit r :
  match r with [] => True | c :: _ => is_digit c = false end ->
  match c_str r with [] => True | c :: _ => is_digit c = false end.
Proof.
  destruct r as [|c r]; simpl; [auto|].
  destruct (is_nul c); simpl; auto.
Qed.

(** The unsigned case of [atoi]. *)
Lemma atoi_unsigned s c r :
  skip_space (c_str (list_ascii_of_string s)) = c :: r ->
  c <> "-"%char -> c <> "+"%char ->
  atoi s = wrap32 (leading_digits (c :: r) 0).
Proof.
  unfold atoi. intros -> Hm Hp.
  destruct c as [[] [] [] [] [] [] [] []]; try reflexivity;
    exfalso; first [apply Hm; reflexivity | apply Hp; reflexivity].
Qed.

End Atoi.

(** [atoi] on a token that starts with decimal digits denoting a
    number an [int] can hold returns that number, whatever follows the
    digits; with a '-' in front it returns the opposite, with a '+' the
    number itself. *)
Theorem atoi_reads_leading_digits (d rest : string) :
  all_digits d = true -> d <> EmptyString -> decimal d <= INT_MAX ->
  match rest with
  | EmptyString => True
  | String c _ => is_digit c = false
  end ->
  atoi (d +:+ rest) = decimal d /\
  atoi (String "-" (d +:+ rest)) = - decimal d /\
  atoi (String "+" (d +:+ rest)) = decimal d.
Proof.
  unfold all_digits, decimal. intros Hd Hne Hmax Hrest.
  pose proof (decimal_nonneg d Hd) as H0. unfold decimal in H0.
  assert (Hr : match list_ascii_of_string rest with
               | [] => True | c :: _ => is_digit c = false end)
    by (destruct rest; exact Hrest).
  apply c_str_head_not_digit in Hr.
  set (ld := list_ascii_of_string d) in *.
  set (X := c_str (list_ascii_of_string rest)) in *.
  assert (Hld : leading_digits (ld ++ X) 0 = leading_digits ld 0)
    by (apply leading_digits_app; assumption).
  assert (Hcs : c_str (list_ascii_of_string (d +:+ rest)) = ld ++ X)
    by (rewrite list_ascii_of_string_app; apply c_str_digits, Hd).
  assert (Hhead : exists c dl, ld = c :: dl /\ is_digit c = true).
  { destruct d as [|c d]; [congruence|]. exists c, (list_ascii_of_string d).
    split; [reflexivity|]. apply andb_prop in Hd as [Hc _]. exact Hc. }
  destruct Hhead as (c & dl & El & Hc).
  destruct (digit_plain c Hc) as (Hnul & Hsp & Hm & Hp).
  assert (Hval : -2147483648 <= leading_digits ld 0 <= INT_MAX /\
                 -2147483648 <= - leading_digits ld 0 <= INT_MAX)
    by (unfold INT_MAX in *; lia).
  split; [|split].
  - rewrite (atoi_unsigned _ c (dl ++ X)).
    + change (c :: dl ++ X) with ((c :: dl) ++ X). rewrite <- El, Hld.
      apply wrap32_range, Hval.
    + rewrite Hcs, El. simpl. rewrite Hsp. reflexivity.
    + exact Hm.
    + exact Hp.
  - unfold atoi.
    change (list_ascii_of_string (String "-" (d +:+ rest)))
      with ("-"%char :: list_ascii_of_string (d +:+ rest)).
    change (c_str ("-"%char :: list_ascii_of_string (d +:+ rest)))
      with ("-"%char :: c_str (list_ascii_of_string (d +:+ rest))).
    rewrite Hcs.
    change (skip_space ("-"%char :: ld ++ X)) with ("-"%char :: ld ++ X).
    cbv iota beta. rewrite Hld. apply wrap32_range, Hval.
  - unfold atoi.
    change (list_ascii_of_string (String "+" (d +:+ rest)))
      with ("+"%char :: list_ascii_of_string (d +:+ rest)).
    change (c_str ("+"%char :: list_ascii_of_string (d +:+ rest)))
      with ("+"%char :: c_str (list_ascii_of_string (d +:+ rest))).
    rewrite Hcs.
    change (skip_space ("+"%char :: ld ++ X)) with ("+"%char :: ld ++ X).
    cbv iota beta. rewrite Hld. apply wrap32_range, Hval.
Qed.

Lemma atoi_reads_leading_digits_witness :
  all_digits "12" = true /\ decimal "12" <= INT_MAX /\
  atoi ("12" +:+ "abc") = 12 /\ atoi (String "-" ("12" +:+ "abc")) = -12.
Proof.
  assert (Hmax : decimal "12" <= INT_MAX) by (vm_compute; discriminate).
  assert (Hne : "12"%string <> EmptyString) by discriminate.
  destruct (atoi_reads_leading_digits "12" "abc" eq_refl Hne Hmax eq_refl)
    as (H1 & H2 & _).
  split; [reflexivity|]. split; [exact Hmax|].
  split; [exact H1 | exact H2].
Defined.

(** X12. DAT with a parameter that does not start with a digit or a sign
    (a name, say) gets the value 0 from [atoi]: the word 0 is emitted and
    nothing is reported. *)
Theorem dat_word_is_zero (line : Z) (c : ascii) (s : string) (st : asm) :
  is_digit c = false -> c <> "-"%char -> c <> "+"%char ->
  isspace c = false ->
  g_pc (glob st) < program_size ->
  atoi (String c s) = 0 /\
  emit line MNEMONIC_DAT (String c s) st = Some (store_word 0 st).
Proof.
  intros Hd Hm Hp Hsp Hpc.
  assert (Ha : atoi (String c s) = 0).
  { destruct (is_nul c) eqn:Hnul.
    - unfold atoi. simpl. rewrite Hnul. reflexivity.
    - rewrite (atoi_unsigned _ c (c_str (list_ascii_of_string s))).
      + simpl. rewrite Hd. reflexivity.
      + simpl. rewrite Hnul. simpl. rewrite Hsp. reflexivity.
      + exact Hm.
      + exact Hp. }
  split; [exact Ha|]. unfold emit.
  destruct (Z.leb_spec program_size (g_pc (glob st))); [lia|].
  unfold MNEMONIC_DAT, emit_dat. cbv iota beta.
  change (empty (String c s)) with false. cbv iota. rewrite Ha. reflexivity.
Qed.

Lemma dat_word_is_zero_witness :
  g_pc (glob initial_asm) < program_size /\
  emit 1 MNEMONIC_DAT "foo" initial_asm = Some (store_word 0 initial_asm).
Proof.
  assert (Hpc : g_pc (glob initial_asm) < program_size) by reflexivity.
  split; [exact Hpc|].
  exact (proj2 (dat_word_is_zero 1 "f" "oo" initial_asm eq_refl
                  ltac:(discriminate) ltac:(discriminate) eq_refl Hpc)).
Defined.

Lemma resolve_ref_errcount line l st :
  errcount st <= errcount (resolve_ref line l st).
Proof.
  unfold resolve_ref.
  destruct (negb (scan_number (list_ascii_of_string l.2) 0 =? -1)).
  - destruct (999 <? scan_number (list_ascii_of_string l.2) 0); simpl; lia.
  - destruct (label_pc st !! l.2) as [f|]; [|simpl; lia].
    destruct (99 <? f); simpl; lia.
Qed.

Lemma resolve_all_errcount line refs : forall st,
  errcount st <= errcount (fold_left (fun s l => resolve_ref line l s) refs st).
Proof.
  induction refs as [|l refs IH]; simpl; intros st; [lia|].
  pose proof (resolve_ref_errcount line l st).
  pose proof (IH (resolve_ref line l st)). lia.
Qed.

(** X13. Pass 2 writes only to the cells that have a pending reference:
    every other cell, the counter, the label table and the pending
    references are as pass 1 left them; the image keeps its length, the
    messages of pass 1 stay in front and the error counter does not go
    down. *)
Theorem pass2_touches_only_references (line : Z) (st : asm) :
  let st' := pass2 line st in
  g_pc (glob st') = g_pc (glob st) /\
  label_pc st' = label_pc st /\
  label_ref st' = label_ref st /\
  length (g_program (glob st')) = length (g_program (glob st)) /\
  cerr st `prefix_of` cerr st' /\
  errcount st <= errcount st' /\
  forall a, a ∉ (label_ref st).*1 ->
    read_cell a (g_program (glob st')) = read_cell a (g_program (glob st)).
Proof.
  unfold pass2.
  destruct (resolve_all_keeps line (label_ref st) st) as (H1 & H2 & H3).
  destruct (resolve_all_frame line (label_ref st) st) as (F1 & F2 & F3 & _).
  pose proof (resolve_all_errcount line (label_ref st) st).
  repeat split; assumption.
Qed.

Lemma pass2_touches_only_references_witness :
  match pass1 ["ADD 5"; "DAT 7"]%string 0 initial_asm with
  | Some (n, st) =>
      (1 ∉ (label_ref st).*1) /\
      read_cell 1 (g_program (glob (pass2 n st))) = Some 7
  | None => False
  end.
Proof.
  destruct (pass1 ["ADD 5"; "DAT 7"]%string 0 initial_asm)
    as [[n st]|] eqn:E; [|vm_compute in E; discriminate].
  destruct (pass2_touches_only_references n st) as (_ & _ & _ & _ & _ & _ & H).
  vm_compute in E. injection E as <- <-.
  assert (Hn : 1 ∉ [0]) by (intros Hin; apply list_elem_of_singleton in Hin; discriminate).
  split; [exact Hn|]. rewrite (H 1 Hn). reflexivity.
Defined.

(** ** The interpreter, turn after turn *)

Section Turns.

Implicit Types (m : machine).

Lemma run_ok fuel : forall m,
  machine_ok m ->
  match run fuel m with
  | Continue m' => machine_ok m'
  | OutOfBounds i _ => i = program_size
  | _ => True
  end.
Proof.
  induction fuel as [|fuel IH]; simpl; intros m Hm; [exact Hm|].
  pose proof (step_ok m Hm) as Hs.
  destruct (step m) as [m1| |i m1|]; try exact I.
  - apply IH, Hs.
  - apply Hs.
Qed.

Lemma parse_image_length lines ok st :
  parse lines = Some (ok, st) -> length (g_program (glob st)) = 100%nat.
Proof.
  unfold parse. intros H.
  destruct (pass1 lines 0 initial_asm) as [[n st1]|] eqn:E; [|discriminate].
  injection H as _ <-.
  unfold pass2.
  destruct (resolve_all_frame n (label_ref st1) st1) as (_ & -> & _).
  apply (ok_length _ (asm_ok_pass1 _ _ _ _ _ E asm_ok_initial)).
Qed.

(** What a turn does to the streams. *)
Lemma step_streams m :
  cout m `prefix_of` cout (machine_of (step m)) /\
  cin (machine_of (step m)) `suffix_of` cin m.
Proof.
  unfold step.
  destruct (read_cell (g_pc (mglob m)) (g_program (mglob m))) as [cell|];
    [|split; reflexivity].
  cbv zeta.
  destruct (cdiv cell 100) as [|p|p];
    [ | do 4 (try destruct p as [p|p|]) | try destruct p as [p|p|] ];
    simpl;
    repeat match goal with
      | |- context [match read_cell ?l ?p with _ => _ end] =>
          destruct (read_cell l p)
      | |- context [match cin m with _ => _ end] =>
          destruct (cin m) eqn:Ec
      | |- context [if ?b then _ else _] => destruct b
      end;
    simpl; try rewrite Ec; split;
    first [ reflexivity | apply prefix_app_r; reflexivity
          | apply suffix_cons_r; reflexivity ].
Qed.

Lemma run_streams fuel : forall m,
  cout m `prefix_of` cout (machine_of (run fuel m)) /\
  cin (machine_of (run fuel m)) `suffix_of` cin m.
Proof.
  induction fuel as [|fuel IH]; simpl; intros m; [split; reflexivity|].
  pose proof (step_streams m) as [Ho Hi].
  destruct (step m) as [m1| m1|i m1|m1]; simpl in *; try (split; assumption).
  destruct (IH m1) as [Ho1 Hi1].
  split; etransitivity; eassumption.
Qed.

End Turns.

(** X14. Running any image [parse] has left, for any number of turns and
    on any input, the only access outside the array is the fetch at index
    100: the operands of ADD, SUB, STA and LDA and the targets of the
    branches are always inside, whatever the program has stored in its own
    cells. *)
Theorem execute_leaves_image_only_at_100 (lines : list string) (ok : bool)
    (st : asm) (fuel : nat) (input : list Z) (i : Z) (m : machine) :
  parse lines = Some (ok, st) ->
  execute fuel (glob st) input = OutOfBounds i m ->
  i = program_size.
Proof.
  intros Hp He. unfold execute in He.
  pose proof (run_ok fuel (boot (glob st) input)
                (boot_ok _ _ (parse_image_length _ _ _ Hp))) as H.
  rewrite He in H. exact H.
Qed.

Lemma execute_leaves_image_only_at_100_witness :
  match parse (replicate 100 "OUT"%string) with
  | Some (ok, st) =>
      exists m, execute 101 (glob st) [] = OutOfBounds program_size m
  | None => False
  end.
Proof.
  destruct (parse (replicate 100 "OUT"%string)) as [[ok st]|] eqn:E;
    [|vm_compute in E; discriminate].
  destruct (execute 101 (glob st) []) as [m|m|i m|m] eqn:Ex;
    try (exfalso; vm_compute in E; injection E as <- <-;
         vm_compute in Ex; discriminate).
  exists m. rewrite (execute_leaves_image_only_at_100 _ ok st 101 [] i m E Ex).
  reflexivity.
Defined.

(** X15. A turn that goes on, from a machine whose cells and accumulator
    are in [0, 999] and whose input holds no negative number, leaves them
    there, unless it is a SUB that borrows: the cell fetched has opcode 2,
    its operand cell holds more than the accumulator, and the turn sets
    the overflow flag and leaves the negative difference, above -1000, in
    the accumulator.  (A turn that stops the model, HLT or an INP with
    nothing left to read, is no matter here.) *)
Theorem range_left_only_by_borrow (m m' : machine) :
  in_range m -> Forall (fun v => 0 <= v) (cin m) ->
  step m = Continue m' ->
  Forall (fun v => 0 <= v) (cin m') /\
  (in_range m' \/
   exists cell v,
     read_cell (g_pc (mglob m)) (g_program (mglob m)) = Some cell /\
     Z.quot cell 100 = MNEMONIC_SUB /\
     read_cell (Z.rem cell 100) (g_program (mglob m)) = Some v /\
     acc m < v /\ -1000 < acc m - v < 0 /\
     m' = set_acc_overflow (acc m - v) true
            (set_pc (g_pc (mglob m) + 1) m)).
Proof.
  intros Hr Hin Hs.
  assert (Hin' : Forall (fun v => 0 <= v) (cin m')).
  { pose proof (step_streams m) as [_ [k Hk]]. rewrite Hs in Hk. simpl in Hk.
    rewrite Hk in Hin. apply Forall_app in Hin as [_ H]. exact H. }
  split; [exact Hin'|].
  destruct (read_cell (g_pc (mglob m)) (g_program (mglob m)))
    as [cell|] eqn:Hf; [|unfold step in Hs; rewrite Hf in Hs; discriminate].
  destruct (step_range m m' cell Hr Hf Hs)
    as [H | [[Hk Hneg] | [Hk (v & rest & Hc & Hv)]]].
  - left. exact H.
  - right. unfold step in Hs. rewrite Hf in Hs. cbv zeta in Hs.
    rewrite Hk in Hs. simpl in Hs.
    destruct (read_cell (cmod cell 100) (g_program (mglob m))) as [x|] eqn:Hx;
      [|discriminate].
    injection Hs as <-. simpl in Hneg.
    destruct Hr as [Hcells Hacc].
    pose proof (read_cell_Forall _ _ _ _ Hcells Hx) as Hxr. simpl in Hxr.
    rewrite cmod_small in Hneg |- * by lia.
    exists cell, x. split; [reflexivity|]. split; [exact Hk|].
    split; [exact Hx|]. split; [lia|]. split; [lia|].
    destruct (Z.ltb_spec (acc m) x); [reflexivity | lia].
  - exfalso. rewrite Hc in Hin. apply Forall_cons in Hin as [H _]. lia.
Qed.

Lemma range_left_only_by_borrow_witness :
  let m := boot {| g_pc := 0; g_program := [201; 1] ++ replicate 98 0 |} [] in
  in_range m /\ Forall (fun v => 0 <= v) (cin m) /\
  exists m', step m = Continue m' /\
    (in_range m' \/
     exists cell v,
       read_cell (g_pc (mglob m)) (g_program (mglob m)) = Some cell /\
       Z.quot cell 100 = MNEMONIC_SUB /\
       read_cell (Z.rem cell 100) (g_program (mglob m)) = Some v /\
       acc m < v /\ -1000 < acc m - v < 0 /\
       m' = set_acc_overflow (acc m - v) true
              (set_pc (g_pc (mglob m) + 1) m)).
Proof.
  intros m.
  assert (Hr : in_range m).
  { split; [|simpl; lia].
    change (g_program (mglob m)) with ([201; 1] ++ replicate 98 0).
    apply Forall_app. split; [repeat constructor; lia|].
    apply Forall_replicate. lia. }
  assert (Hin : Forall (fun v => 0 <= v) (cin m)) by constructor.
  split; [exact Hr|]. split; [exact Hin|].
  destruct (step m) as [m'|m'|i m'|m'] eqn:E;
    try (vm_compute in E; discriminate).
  exists m'. split; [reflexivity|].
  exact (proj2 (range_left_only_by_borrow m m' Hr Hin E)).
Defined.

(** X16. STA then LDA of the same address gives the accumulator back, as
    long as it fits a [short]: STA puts it in that cell, leaves every other
    cell alone, and LDA reads it whatever the accumulator has become. *)
Theorem sta_then_lda (m : machine) (loc a : Z) :
  length (g_program (mglob m)) = 100%nat ->
  0 <= loc < program_size ->
  -32768 <= acc m <= 32767 ->
  exists m1,
    dispatch MNEMONIC_STA loc m = Continue m1 /\
    read_cell loc (g_program (mglob m1)) = Some (acc m) /\
    (forall j, j <> loc ->
       read_cell j (g_program (mglob m1)) = read_cell j (g_program (mglob m))) /\
    dispatch MNEMONIC_LDA loc (set_acc a m1) =
      Continue (set_acc (acc m) (set_acc a m1)).
Proof.
  intros Hlen Hloc Hacc.
  destruct (read_cell_in_range loc _ Hlen Hloc) as [v Hv].
  assert (Hnew : read_cell loc (write_cell loc (acc m) (g_program (mglob m))) =
                 Some (acc m)).
  { rewrite read_write_same by assumption.
    rewrite wrap16_range by exact Hacc. reflexivity. }
  eexists. split; [simpl; rewrite Hv; reflexivity|].
  split; [exact Hnew|]. split.
  - intros j Hj. simpl. apply read_write_other; [exact Hj | lia].
  - simpl. simpl in Hnew. rewrite Hnew. reflexivity.
Qed.

Lemma sta_then_lda_witness :
  let m := set_acc 42 (boot initial_globals []) in
  exists m1,
    dispatch MNEMONIC_STA 99 m = Continue m1 /\
    dispatch MNEMONIC_LDA 99 (set_acc 0 m1) = Continue (set_acc 42 (set_acc 0 m1)).
Proof.
  intros m.
  destruct (sta_then_lda m 99 0 eq_refl)
    as (m1 & H1 & _ & _ & H2).
  - unfold program_size. lia.
  - simpl. lia.
  - exists m1. split; [exact H1 | exact H2].
Defined.

(** X17. What a turn can change, by opcode: the image only under STA, the
    overflow flag only under ADD and SUB, the accumulator only under ADD,
    SUB, LDA and INP, the input only under INP and the output only under
    OUT. *)
Theorem step_changes_by_opcode (m m' : machine) (cell : Z) :
  read_cell (g_pc (mglob m)) (g_program (mglob m)) = Some cell ->
  step m = Continue m' ->
  let k := Z.quot cell 100 in
  (k <> MNEMONIC_STA -> g_program (mglob m') = g_program (mglob m)) /\
  (k <> MNEMONIC_ADD -> k <> MNEMONIC_SUB -> overflow m' = overflow m) /\
  (k <> MNEMONIC_ADD -> k <> MNEMONIC_SUB -> k <> MNEMONIC_LDA ->
   k <> MNEMONIC_INP -> acc m' = acc m) /\
  (k <> MNEMONIC_INP -> cin m' = cin m) /\
  (k <> MNEMONIC_OUT -> cout m' = cout m).
Proof.
  intros Hf. unfold step. rewrite Hf. cbv zeta. unfold cdiv, cmod.
  unfold MNEMONIC_STA, MNEMONIC_ADD, MNEMONIC_SUB, MNEMONIC_LDA,
    MNEMONIC_INP, MNEMONIC_OUT.
  destruct (Z.quot cell 100) as [|p|p];
    [ | do 4 (try destruct p as [p|p|]) | try destruct p as [p|p|] ];
    simpl; try discriminate;
    repeat match goal with
      | |- context [match read_cell ?l ?p with _ => _ end] =>
          destruct (read_cell l p); [|discriminate]
      | |- context [match cin m with _ => _ end] =>
          destruct (cin m); [discriminate|]
      | |- context [if ?b then _ else _] => destruct b
      end;
    intros H; injection H as <-; simpl;
    repeat split; intros; first [reflexivity | congruence].
Qed.

Lemma step_changes_by_opcode_witness :
  let m := boot {| g_pc := 0; g_program := 900 :: replicate 99 0 |} [5] in
  exists m', step m = Continue m' /\
    g_program (mglob m') = g_program (mglob m) /\ cin m' = cin m /\
    acc m' = acc m.
Proof.
  intros m.
  assert (Hf : read_cell (g_pc (mglob m)) (g_program (mglob m)) = Some 900)
    by reflexivity.
  destruct (step m) as [m'|m'|i m'|m'] eqn:E;
    try (vm_compute in E; discriminate).
  exists m'. split; [reflexivity|].
  destruct (step_changes_by_opcode m m' 900 Hf E) as (H1 & _ & H3 & H4 & _).
  split; [apply H1; vm_compute; discriminate|].
  split; [apply H4; vm_compute; discriminate|].
  apply H3; vm_compute; discriminate.
Defined.

(** X18. A run never takes back what it has printed and never reads
    ahead: at any point the output so far starts with the output of any
    earlier point, and the input left is an end of the input given. *)
Theorem run_keeps_output (fuel : nat) (m : machine) :
  cout m `prefix_of` cout (machine_of (run fuel m)) /\
  cin (machine_of (run fuel m)) `suffix_of` cin m.
Proof. apply run_streams. Qed.

(** X19. A turn halts exactly when the cell fetched is between -99 and 99:
    every such value, not only 0, is read as HLT. *)
Theorem halt_iff_small_cell (m : machine) (cell : Z) :
  read_cell (g_pc (mglob m)) (g_program (mglob m)) = Some cell ->
  (exists m', step m = Halt m') <-> -100 < cell < 100.
Proof.
  intros Hf. unfold step. rewrite Hf. cbv zeta.
  assert (Hk : cdiv cell 100 = 0 <-> -100 < cell < 100).
  { unfold cdiv. split; intros H; Z.to_euclidean_division_equations; lia. }
  rewrite <- Hk. clear Hk.
  destruct (cdiv cell 100) as [|p|p];
    [ split; [reflexivity | intros _; eexists; reflexivity] | | ];
    (split; [|discriminate]); intros [m' H]; exfalso; revert H;
    [ do 4 (try destruct p as [p|p|]) | try destruct p as [p|p|] ];
    simpl;
    repeat match goal with
      | |- context [match read_cell ?l ?p with _ => _ end] =>
          destruct (read_cell l p)
      | |- context [match cin m with _ => _ end] => destruct (cin m)
      | |- context [if ?b then _ else _] => destruct b
      end; discriminate.
Qed.

Lemma halt_iff_small_cell_witness :
  let m := boot {| g_pc := 0; g_program := 42 :: replicate 99 0 |} [] in
  read_cell (g_pc (mglob m)) (g_program (mglob m)) = Some 42 /\
  exists m', step m = Halt m'.
Proof.
  intros m.
  assert (Hf : read_cell (g_pc (mglob m)) (g_program (mglob m)) = Some 42)
    by reflexivity.
  split; [exact Hf|].
  apply (proj2 (halt_iff_small_cell m 42 Hf)). lia.
Defined.

(** X20. SUB followed by a branch, on values of [0, 999]: after SUB of a
    cell holding [v] from the accumulator [a], BRP branches exactly when
    [v <= a] (no borrow) and BRZ exactly when [a = v]. *)
Theorem sub_then_branch (m : machine) (loc v target : Z) :
  read_cell loc (g_program (mglob m)) = Some v ->
  0 <= acc m <= 999 -> 0 <= v <= 999 ->
  exists m1,
    dispatch MNEMONIC_SUB loc m = Continue m1 /\
    dispatch MNEMONIC_BRP target m1 =
      Continue (if v <=? acc m then set_pc target m1 else m1) /\
    dispatch MNEMONIC_BRZ target m1 =
      Continue (if acc m =? v then set_pc target m1 else m1).
Proof.
  intros Hv Ha Hr. eexists.
  split; [apply (sub_semantics m loc v Hv Ha Hr)|]. split; simpl.
  - destruct (Z.ltb_spec (acc m) v), (Z.leb_spec v (acc m));
      try lia; reflexivity.
  - destruct (Z.eqb_spec (acc m - v) 0), (Z.eqb_spec (acc m) v);
      try lia; reflexivity.
Qed.

Lemma sub_then_branch_witness :
  let m := set_acc 5 (boot {| g_pc := 0;
                              g_program := [7] ++ replicate 99 0 |} []) in
  exists m1,
    dispatch MNEMONIC_SUB 0 m = Continue m1 /\
    dispatch MNEMONIC_BRP 9 m1 = Continue m1.
Proof.
  intros m.
  destruct (sub_then_branch m 0 7 9 eq_refl)
    as (m1 & H1 & H2 & _).
  - simpl. lia.
  - lia.
  - exists m1. split; [exact H1 | exact H2].
Defined.

(** ** The command line *)

Section CommandLine.

Lemma code_inj c n : code c = n -> c = ascii_of_N n.
Proof. intros <-. unfold code. symmetry. apply ascii_N_embedding. Qed.

Lemma after_last_slash_none s : after_last_slash s = None -> no_slash s = true.
Proof.
  unfold no_slash. induction s as [|c s IH]; simpl; [reflexivity|].
  destruct (after_last_slash s); [discriminate|].
  destruct (code c =? 47)%N; [discriminate|]. intros _. simpl. auto.
Qed.

Lemma after_last_slash_some s r :
  after_last_slash s = Some r ->
  no_slash r = true /\ exists d, s = (d +:+ String "/" r)%string.
Proof.
  revert r. induction s as [|c s IH]; simpl; intros r H; [discriminate|].
  destruct (after_last_slash s) as [r'|] eqn:E.
  - injection H as <-. destruct (IH r' eq_refl) as [Hn [d ->]].
    split; [exact Hn|]. exists (String c d). reflexivity.
  - destruct (N.eqb_spec (code c) 47) as [Hc|]; [|discriminate].
    injection H as <-. split; [apply after_last_slash_none, E|].
    exists EmptyString. simpl. rewrite (code_inj c 47 Hc). reflexivity.
Qed.

Lemma scan_flags_letters letters : forall show show',
  scan_flags letters show = FlagsDone show' ->
  Forall (fun c => c = "s"%char) letters /\
  show' = show || negb (bool_decide (letters = [])).
Proof.
  induction letters as [|c letters IH]; simpl; intros show show' H.
  - injection H as <-. split; [constructor|]. destruct show; reflexivity.
  - destruct (code c =? 104)%N; [discriminate|].
    destruct (N.eqb_spec (code c) 115) as [Hc|]; [|discriminate].
    destruct (IH _ _ H) as [Hall ->]. split.
    + constructor; [apply (code_inj c 115 Hc) | exact Hall].
    + simpl. destruct show; reflexivity.
Qed.

Lemma scan_args_ok args : forall show filename show' f,
  scan_args args show filename = ArgsOk show' f ->
  (if empty filename then file_arguments args = [f]
   else file_arguments args = [] /\ f = filename) /\
  Forall (fun c => c = "s"%char) (option_letters args) /\
  show' = show || negb (bool_decide (option_letters args = [])).
Proof.
  induction args as [|arg args IH]; simpl; intros show filename show' f H.
  - destruct (empty filename) eqn:E; [discriminate|]. injection H as <- <-.
    split; [split; reflexivity|]. split; [constructor|].
    destruct show; reflexivity.
  - destruct arg as [|c letters].
    + destruct (empty filename) eqn:E; [|discriminate].
      destruct (IH _ _ _ _ H) as (Hf & Hl & Hs).
      change (empty EmptyString) with true in Hf. simpl.
      split; [exact Hf|]. split; assumption.
    + unfold is_option. destruct (code c =? 45)%N eqn:Hc.
      * destruct (scan_flags (list_ascii_of_string letters) show)
          as [sh| |u] eqn:Ef; try discriminate.
        destruct (scan_flags_letters _ _ _ Ef) as [Hall ->].
        destruct (IH _ _ _ _ H) as (Hf & Hl & ->).
        simpl. split; [exact Hf|]. split; [apply Forall_app; auto|].
        destruct (list_ascii_of_string letters); simpl;
          [rewrite orb_false_r; reflexivity|].
        rewrite orb_true_r. reflexivity.
      * destruct (empty filename) eqn:E; [|discriminate].
        destruct (IH _ _ _ _ H) as (Hf & Hl & Hs).
        change (empty (String c letters)) with false in Hf |- *. simpl.
        destruct Hf as [-> ->]. split; [reflexivity|]. split; assumption.
Qed.

End CommandLine.

(** X21. The program name shown by the help is what follows the last '/'
    of [argv[0]], or all of it when it has none: it holds no '/', and
    [argv[0]] is the name itself or a part ending in '/' followed by it. *)
Theorem progname_is_basename (argv0 : string) :
  no_slash (progname argv0) = true /\
  (argv0 = progname argv0 \/
   exists dir, argv0 = (dir +:+ String "/" (progname argv0))%string).
Proof.
  unfold progname. destruct (after_last_slash argv0) as [r|] eqn:E.
  - destruct (after_last_slash_some _ _ E) as [Hn Hd]. split; [exact Hn|].
    right. exact Hd.
  - split; [apply after_last_slash_none, E | left; reflexivity].
Qed.

(** X22. When the arguments are accepted, exactly one of them is neither
    an option nor empty, and it is the file name: so the file name is never
    empty and never starts with '-'.  Every letter of every option is 's',
    and the listing is asked for exactly when there is such a letter. *)
Theorem scan_args_accepts (args : list string) (show : bool) (f : string) :
  scan_args args false EmptyString = ArgsOk show f ->
  file_arguments args = [f] /\
  f <> EmptyString /\ is_option f = false /\
  Forall (fun c => c = "s"%char) (option_letters args) /\
  show = negb (bool_decide (option_letters args = [])).
Proof.
  intros H. destruct (scan_args_ok _ _ _ _ _ H) as (Hf & Hl & Hs).
  change (empty EmptyString) with true in Hf. cbv iota in Hf.
  split; [exact Hf|].
  assert (Hin : f ∈ file_arguments args) by (rewrite Hf; left).
  assert (Hplain : forall l x, x ∈ file_arguments l ->
                               x <> EmptyString /\ is_option x = false).
  { induction l as [|a l IH]; simpl; intros x Hx; [inversion Hx|].
    destruct (is_option a) eqn:Ho; simpl in Hx; [auto|].
    destruct (empty a) eqn:Ee; [auto|].
    apply elem_of_cons in Hx as [->|Hx]; [|auto].
    split; [apply empty_false, Ee | exact Ho]. }
  destruct (Hplain _ _ Hin) as [Hne Hopt].
  split; [exact Hne|]. split; [exact Hopt|]. split; [exact Hl | exact Hs].
Qed.

Lemma scan_args_accepts_witness :
  scan_args ["-s"; "prog.lmc"; "-"]%string false EmptyString =
    ArgsOk true "prog.lmc" /\
  file_arguments ["-s"; "prog.lmc"; "-"]%string = ["prog.lmc"%string].
Proof.
  assert (H : scan_args ["-s"; "prog.lmc"; "-"]%string false EmptyString =
              ArgsOk true "prog.lmc") by reflexivity.
  split; [exact H | exact (proj1 (scan_args_accepts _ _ _ H))].
Defined.

(** X23. [main] returns 0 only after a file was opened and assembled with
    the error counter at 0, and then either the listing was asked for or
    the program ran until HLT. *)
Theorem main_returns_zero (fuel : nat) (argv0 : string) (args : list string)
    (files : string -> option (list string)) (input : list Z) :
  exit_code (main fuel argv0 args files input) = Some 0 ->
  exists show filename lines st,
    scan_args args false EmptyString = ArgsOk show filename /\
    files filename = Some lines /\
    parse lines = Some (true, st) /\ errcount st = 0 /\
    (if show
     then main fuel argv0 args files input = MainListing (listing (glob st))
     else exists m, execute fuel (glob st) input = Halt m).
Proof.
  unfold main.
  destruct (scan_args args false EmptyString) as [show f| | | |] eqn:Ea;
    try discriminate.
  destruct (files f) as [lines|] eqn:Ef; [|discriminate].
  destruct (parse lines) as [[[] st]|] eqn:Ep; try discriminate.
  intros H. exists show, f, lines, st.
  split; [reflexivity|]. split; [exact Ef|]. split; [exact Ep|].
  split.
  - destruct (parse_fails_iff_counted _ _ _ Ep) as [_ [_ Hb]].
    destruct (Z.eq_dec (errcount st) 0) as [E|N]; [exact E|].
    discriminate (Hb N).
  - destruct show; [reflexivity|].
    simpl in H. destruct (execute fuel (glob st) input) as [m|m|i m|m];
      try discriminate. exists m. reflexivity.
Qed.

Lemma main_returns_zero_witness :
  let files := fun name : string =>
    if String.eqb name "echo.lmc" then Some ["INP"; "OUT"]%string else None in
  exit_code (main 3 "./lmc" ["echo.lmc"]%string files [4]) = Some 0 /\
  exists m, main 3 "./lmc" ["echo.lmc"]%string files [4] = MainExecuted (Halt m) /\
            cout m = [4].
Proof.
  intros files.
  assert (H : exit_code (main 3 "./lmc" ["echo.lmc"]%string files [4]) = Some 0)
    by (vm_compute; reflexivity).
  split; [exact H|].
  destruct (main_returns_zero 3 "./lmc" ["echo.lmc"]%string files [4] H)
    as (show & f & lines & st & Ha & Hf & Hp & _ & Hrun).
  eexists. split; vm_compute; reflexivity.
Defined.

(** X24. The listing of [-s], after any [parse]: one row per word emitted
    (so at most one per line of the source), in address order from 0, each
    read inside the array. *)
Theorem listing_rows (lines : list string) (ok : bool) (st : asm) :
  parse lines = Some (ok, st) ->
  length (listing (glob st)) = Z.to_nat (g_pc (glob st)) /\
  (length (listing (glob st)) <= length lines)%nat /\
  forall (i : nat) row, listing (glob st) !! i = Some row ->
    row.1 = Z.of_nat i /\
    exists v, row.2 = Some v /\
              g_program (glob st) !! i = Some v.
Proof.
  unfold parse. intros H.
  destruct (pass1 lines 0 initial_asm) as [[n st1]|] eqn:E; [|discriminate].
  injection H as _ <-.
  pose proof (asm_ok_pass1 _ _ _ _ _ E asm_ok_initial) as Hok.
  destruct (pass1_steps _ _ _ _ _ asm_ok_initial E) as [Hn _].
  change (g_pc (glob initial_asm)) with 0 in Hn.
  destruct (resolve_all_keeps n (label_ref st1) st1) as (Hpc & _).
  destruct (resolve_all_frame n (label_ref st1) st1) as (_ & Hlen & _).
  fold (pass2 n st1) in Hpc, Hlen. pose proof (ok_pc _ Hok) as Hr.
  pose proof (ok_length _ Hok) as Hl.
  unfold listing. rewrite length_fmap, length_seqZ, Hpc.
  split; [reflexivity|]. split; [lia|].
  intros i row Hrow. rewrite list_lookup_fmap in Hrow.
  destruct (seqZ 0 (g_pc (glob st1)) !! i) as [pc|] eqn:Hs; [|discriminate].
  apply lookup_seqZ in Hs as [-> Hi]. injection Hrow as <-. simpl.
  split; [lia|].
  unfold read_cell, program_size in *.
  destruct (Z.leb_spec 0 (0 + Z.of_nat i)), (Z.ltb_spec (0 + Z.of_nat i) 100);
    try lia. simpl.
  replace (Z.to_nat (0 + Z.of_nat i)) with i by lia.
  destruct (lookup_lt_is_Some_2 (g_program (glob (pass2 n st1))) i) as [v Hv];
    [lia|].
  exists v. split; exact Hv.
Qed.

Lemma listing_rows_witness :
  match parse ["INP"; "STA 99"; "bad"]%string with
  | Some (ok, st) => length (listing (glob st)) = 2%nat
  | None => False
  end.
Proof.
  destruct (parse ["INP"; "STA 99"; "bad"]%string) as [[ok st]|] eqn:E;
    [|vm_compute in E; discriminate].
  rewrite (proj1 (listing_rows _ ok st E)).
  vm_compute in E. injection E as _ <-. reflexivity.
Defined.

(** ** Tokens back and forth, and lines without tokens *)

Section Layout.

Import TokenizerSpec.

Lemma ws_words_word w : forall r cur,
  Forall (fun c => isspace c = false) w ->
  ws_words (w ++ r) cur = ws_words r (cur ++ w).
Proof.
  induction w as [|c w IH]; simpl; intros r cur H.
  - rewrite app_nil_r. reflexivity.
  - apply Forall_cons in H as [Hc Hw]. rewrite Hc, IH by exact Hw.
    rewrite <- app_assoc. reflexivity.
Qed.

Lemma word_char_parts c :
  word_char c = true ->
  is_nul c = false /\ isspace c = false /\ is_comment c = false.
Proof.
  unfold word_char. intros H.
  apply andb_prop in H as [H Hc]. apply andb_prop in H as [Hn Hs].
  apply negb_true_iff in Hn, Hs, Hc. auto.
Qed.

Lemma plain_chars_kept l :
  Forall (fun c => is_nul c = false /\ is_comment c = false) l ->
  before_comment (c_str l) = l.
Proof.
  induction l as [|c l IH]; simpl; intros H; [reflexivity|].
  apply Forall_cons in H as [[Hn Hc] Hl]. rewrite Hn. simpl.
  rewrite Hc, IH by exact Hl. reflexivity.
Qed.

Lemma concat_chars w ws :
  list_ascii_of_string (String.concat " " (w :: ws)) =
  list_ascii_of_string w ++
  match ws with
  | [] => []
  | _ => " "%char :: list_ascii_of_string (String.concat " " ws)
  end.
Proof.
  destruct ws as [|w2 ws]; simpl; [rewrite app_nil_r; reflexivity|].
  change (w ++ String " " (String.concat " " (w2 :: ws)))%string
    with (w +:+ String " " (String.concat " " (w2 :: ws))).
  rewrite list_ascii_of_string_app. reflexivity.
Qed.

Lemma joined_plain ws :
  Forall token_ok ws ->
  Forall (fun c => is_nul c = false /\ is_comment c = false)
         (list_ascii_of_string (String.concat " " ws)).
Proof.
  induction ws as [|w ws IH]; intros H; [constructor|].
  apply Forall_cons in H as [[_ Hw] Hws]. rewrite concat_chars.
  apply Forall_app. split.
  - apply Forall_forall. intros c Hc.
    assert (word_char c = true) as Hwc.
    { apply (proj1 (forallb_forall _ _) Hw), list_elem_of_In, Hc. }
    destruct (word_char_parts c Hwc) as (? & ? & ?). auto.
  - destruct ws as [|w2 ws]; [constructor|].
    constructor; [split; reflexivity | apply IH, Hws].
Qed.

Lemma joined_words ws :
  Forall token_ok ws ->
  ws_words (list_ascii_of_string (String.concat " " ws)) [] = ws.
Proof.
  induction ws as [|w ws IH]; intros H; [reflexivity|].
  apply Forall_cons in H as [[Hne Hw] Hws]. rewrite concat_chars.
  assert (Hsp : Forall (fun c => isspace c = false) (list_ascii_of_string w)).
  { apply Forall_forall. intros c Hc.
    assert (word_char c = true) as Hwc.
    { apply (proj1 (forallb_forall _ _) Hw), list_elem_of_In, Hc. }
    destruct (word_char_parts c Hwc) as (? & ? & ?). auto. }
  rewrite ws_words_word by exact Hsp. simpl.
  assert (Hflush : flush (list_ascii_of_string w) = [w]).
  { destruct w as [|c w]; [congruence|]. unfold flush.
    change (list_ascii_of_string (String c w))
      with (c :: list_ascii_of_string w).
    cbv iota.
    change (c :: list_ascii_of_string w)
      with (list_ascii_of_string (String c w)).
    rewrite string_of_list_ascii_of_string. reflexivity. }
  destruct ws as [|w2 ws]; simpl; [exact Hflush|].
  rewrite Hflush. simpl in IH. rewrite (IH Hws). reflexivity.
Qed.

End Layout.

(** X25. Tokens joined by single spaces split back into the same tokens:
    [split] undoes the joining for any list of words without NUL,
    whitespace or comment character. *)
Theorem split_join (ws : list string) :
  Forall token_ok ws -> split (String.concat " " ws) = ws.
Proof.
  intros H. rewrite split_c_str.
  rewrite (plain_chars_kept _ (joined_plain ws H)).
  apply joined_words, H.
Qed.

Lemma split_join_witness :
  Forall token_ok ["loop"; "BRA"; "loop"]%string /\
  split (String.concat " " ["loop"; "BRA"; "loop"]%string) =
    ["loop"; "BRA"; "loop"]%string.
Proof.
  assert (H : Forall token_ok ["loop"; "BRA"; "loop"]%string).
  { repeat constructor; discriminate. }
  split; [exact H | exact (split_join _ H)].
Defined.

Section BlankLines.

Implicit Types (st s : asm).

Lemma same_but_lines_refl st : same_but_lines st st.
Proof. repeat split. Qed.

Lemma emit_same line line' k parameter st s st' :
  same_but_lines st s ->
  emit line k parameter st = Some st' ->
  exists s', emit line' k parameter s = Some s' /\ same_but_lines st' s'.
Proof.
  intros H He. sim_records st s H. unfold emit in *. simpl in *.
  destruct (program_size <=? g_pc gl0).
  { injection He as <-. sim_solve Hce. }
  opcode_cases k; try discriminate; injection He as <-;
    unfold emit_plain, emit_ref, emit_dat, store_word, store_ref,
      count_error, report; simpl;
    repeat match goal with
           | |- context [if ?b then _ else _] => destruct b
           end;
    sim_solve Hce.
Qed.

Lemma set_label_same w st s :
  same_but_lines st s -> same_but_lines (set_label w st) (set_label w s).
Proof.
  intros H. sim_records st s H. repeat split; simpl; congruence.
Qed.

Lemma count_error_same line line' e st s :
  same_but_lines st s ->
  same_but_lines (count_error line e st) (count_error line' e s).
Proof.
  intros H. sim_records st s H.
  repeat split; simpl; rewrite ?fmap_app, ?Hce; reflexivity.
Qed.

Lemma process_line_same line line' input st s st' :
  same_but_lines st s ->
  process_line line input st = Some st' ->
  exists s', process_line line' input s = Some s' /\ same_but_lines st' s'.
Proof.
  intros H Hp. unfold process_line in *.
  destruct (split input) as [|w0 rest];
    [injection Hp as <-; eexists; split; [reflexivity | exact H]|].
  destruct (negb (is_mnemonic w0 =? MNEMONIC_NONE)).
  - destruct rest as [|w1 [|w2 rest]];
      try (apply (emit_same _ _ _ _ _ _ _ H Hp)).
    injection Hp as <-. eexists; split; [reflexivity|].
    apply count_error_same, H.
  - destruct rest as [|w1 rest];
      [injection Hp as <-; eexists; split;
       [reflexivity | apply count_error_same, H]|].
    destruct (is_mnemonic w1 =? MNEMONIC_NONE);
      [injection Hp as <-; eexists; split;
       [reflexivity | apply count_error_same, H]|].
    destruct rest as [|w2 [|w3 rest]];
      try (apply (emit_same _ _ _ _ _ _ _ (set_label_same w0 _ _ H) Hp)).
    injection Hp as <-. eexists; split; [reflexivity|].
    apply count_error_same, set_label_same, H.
Qed.

Lemma pass1_same lines : forall line line' st s n st',
  same_but_lines st s ->
  pass1 lines line st = Some (n, st') ->
  exists n' s', pass1 lines line' s = Some (n', s') /\ same_but_lines st' s'.
Proof.
  induction lines as [|input lines IH]; simpl; intros line line' st s n st' H Hp.
  - injection Hp as _ <-. eexists _, _. split; [reflexivity | exact H].
  - destruct (process_line (line + 1) input st) as [st1|] eqn:E;
      [|discriminate].
    destruct (process_line_same _ (line' + 1) _ _ _ _ H E) as (s1 & -> & H1).
    apply (IH _ _ _ _ _ _ H1 Hp).
Qed.

Lemma resolve_ref_same line line' l st s :
  same_but_lines st s ->
  same_but_lines (resolve_ref line l st) (resolve_ref line' l s).
Proof.
  intros H. sim_records st s H. unfold resolve_ref. simpl.
  destruct (negb (scan_number (list_ascii_of_string l.2) 0 =? -1)).
  - destruct (999 <? scan_number (list_ascii_of_string l.2) 0);
      repeat split; simpl; rewrite ?fmap_app, ?Hce; reflexivity.
  - destruct (lp0 !! l.2) as [f|];
      [destruct (99 <? f)|];
      repeat split; simpl; rewrite ?fmap_app, ?Hce; reflexivity.
Qed.

Lemma pass2_same line line' st s :
  same_but_lines st s -> same_but_lines (pass2 line st) (pass2 line' s).
Proof.
  intros H. unfold pass2.
  assert (Hr : label_ref st = label_ref s) by apply H. rewrite <- Hr.
  generalize (label_ref st). intros refs. revert st s H Hr.
  induction refs as [|l refs IH]; simpl; intros st s H Hr; [exact H|].
  apply IH; [apply resolve_ref_same, H|].
  apply (resolve_ref_same line line' l st s H).
Qed.

End BlankLines.

(** X26. A line without tokens (blank, or a comment only) put anywhere in
    a source changes nothing but the line numbers of the messages: [parse]
    returns the same value, with the same image, counter, labels, pending
    references, error count and messages in the same order. *)
Theorem blank_line_changes_nothing (before after : list string)
    (blank : string) :
  split blank = [] ->
  match parse (before ++ blank :: after), parse (before ++ after) with
  | Some (ok, st), Some (ok', st') => ok = ok' /\ same_but_lines st st'
  | _, _ => False
  end.
Proof.
  intros Hb. unfold parse. rewrite !pass1_app.
  destruct (pass1_total before 0 initial_asm) as [s1 ->].
  set (n := 0 + Z.of_nat (length before)).
  change (pass1 (blank :: after) n s1)
    with (match process_line (n + 1) blank s1 with
          | Some st' => pass1 after (n + 1) st'
          | None => None
          end).
  unfold process_line at 1. rewrite Hb.
  destruct (pass1_total after (n + 1) s1) as [st1 E1]. rewrite E1.
  destruct (pass1_same after (n + 1) n s1 s1 _ st1 (same_but_lines_refl s1) E1)
    as (n' & s' & -> & Hsim).
  pose proof (pass2_same (n + 1 + Z.of_nat (length after)) n' _ _ Hsim) as H2.
  cbv zeta. split; [|exact H2].
  destruct H2 as (_ & -> & _). reflexivity.
Qed.

Lemma blank_line_changes_nothing_witness :
  split "   # nothing here" = [] /\
  match parse (["INP"%string] ++ "   # nothing here"%string :: ["OUT"%string]),
        parse (["INP"%string] ++ ["OUT"%string]) with
  | Some (ok, st), Some (ok', st') => ok = ok' /\ same_but_lines st st'
  | _, _ => False
  end.
Proof.
  assert (H : split "   # nothing here" = []) by reflexivity.
  split; [exact H|].
  exact (blank_line_changes_nothing ["INP"%string] ["OUT"%string] _ H).
Defined.

(** ** Values of the image and of the accumulator *)

Section Shorts.

Lemma to_short_range x : short_range (to_short x).
Proof.
  unfold short_range, to_short, wrap.
  change (2 ^ 16) with 65536. change (2 ^ (16 - 1)) with 32768.
  destruct (Z.ltb_spec (x mod 65536) 32768);
    Z.to_euclidean_division_equations; lia.
Qed.

Lemma write_cell_short i v prog :
  Forall short_range prog -> Forall short_range (write_cell i v prog).
Proof. intros H. apply Forall_insert; [exact H | apply to_short_range]. Qed.

Lemma emit_short line k parameter st st' :
  emit line k parameter st = Some st' ->
  Forall short_range (g_program (glob st)) ->
  Forall short_range (g_program (glob st')).
Proof.
  unfold emit. intros He H.
  destruct (program_size <=? g_pc (glob st)); [injection He as <-; exact H|].
  opcode_cases k; try discriminate; injection He as <-; try exact H;
    unfold emit_plain, emit_ref, emit_dat;
    repeat match goal with
           | |- context [if ?b then _ else _] => destruct b
           end;
    simpl; first [exact H | apply write_cell_short, H].
Qed.

Lemma process_line_short line input st st' :
  process_line line input st = Some st' ->
  Forall short_range (g_program (glob st)) ->
  Forall short_range (g_program (glob st')).
Proof.
  unfold process_line. intros Hp H.
  destruct (split input) as [|w0 rest]; [injection Hp as <-; exact H|].
  destruct (negb (is_mnemonic w0 =? MNEMONIC_NONE)).
  - destruct rest as [|w1 [|w2 rest]];
      try (apply (emit_short _ _ _ _ _ Hp), H).
    injection Hp as <-. exact H.
  - destruct rest as [|w1 rest]; [injection Hp as <-; exact H|].
    destruct (is_mnemonic w1 =? MNEMONIC_NONE); [injection Hp as <-; exact H|].
    destruct rest as [|w2 [|w3 rest]];
      try (apply (emit_short _ _ _ _ _ Hp), H).
    injection Hp as <-. exact H.
Qed.

Lemma pass1_short lines : forall line st n st',
  pass1 lines line st = Some (n, st') ->
  Forall short_range (g_program (glob st)) ->
  Forall short_range (g_program (glob st')).
Proof.
  induction lines as [|input lines IH]; simpl; intros line st n st' Hp H.
  - injection Hp as _ <-. exact H.
  - destruct (process_line (line + 1) input st) as [s1|] eqn:E;
      [|discriminate].
    apply (IH _ _ _ _ Hp), (process_line_short _ _ _ _ E H).
Qed.

Lemma add_to_cell_short addr v st :
  Forall short_range (g_program (glob st)) ->
  Forall short_range (g_program (glob (add_to_cell addr v st))).
Proof.
  intros H. unfold add_to_cell. simpl.
  destruct (read_cell addr (g_program (glob st)));
    [apply write_cell_short, H | exact H].
Qed.

Lemma resolve_ref_short line l st :
  Forall short_range (g_program (glob st)) ->
  Forall short_range (g_program (glob (resolve_ref line l st))).
Proof.
  intros H. unfold resolve_ref.
  destruct (negb (scan_number (list_ascii_of_string l.2) 0 =? -1)).
  - destruct (999 <? scan_number (list_ascii_of_string l.2) 0);
      [exact H | apply add_to_cell_short, H].
  - destruct (label_pc st !! l.2) as [f|]; [|exact H].
    apply add_to_cell_short. destruct (99 <? f); exact H.
Qed.

Lemma parse_short lines ok st :
  parse lines = Some (ok, st) -> Forall short_range (g_program (glob st)).
Proof.
  unfold parse. intros H.
  destruct (pass1 lines 0 initial_asm) as [[n st1]|] eqn:E; [|discriminate].
  injection H as _ <-. unfold pass2.
  assert (H1 : Forall short_range (g_program (glob st1))).
  { apply (pass1_short _ _ _ _ _ E). apply Forall_replicate.
    unfold short_range. lia. }
  clear E. revert H1. generalize (label_ref st1). intros refs. revert st1.
  induction refs as [|l refs IH]; simpl; intros st1 H1; [exact H1|].
  apply IH, resolve_ref_short, H1.
Qed.

Lemma cmod_1000_short x : short_range (cmod x 1000).
Proof.
  unfold short_range, cmod. Z.to_euclidean_division_equations. lia.
Qed.

Lemma step_short m :
  fits_short m -> fits_short (machine_of (step m)).
Proof.
  intros [Hc Ha]. unfold step.
  destruct (read_cell (g_pc (mglob m)) (g_program (mglob m))) as [cell|];
    [|split; assumption].
  cbv zeta.
  destruct (cdiv cell 100) as [|p|p];
    [ | do 4 (try destruct p as [p|p|]) | try destruct p as [p|p|] ];
    simpl;
    repeat match goal with
      | |- context [match read_cell ?l ?p with _ => _ end] =>
          let Hv := fresh "Hv" in
          destruct (read_cell l p) eqn:Hv;
          [pose proof (read_cell_Forall _ _ _ _ Hc Hv)|]
      | |- context [match cin m with _ => _ end] => destruct (cin m)
      | |- context [if ?b then _ else _] => destruct b
      end;
    split; simpl;
    first [ assumption | apply cmod_1000_short | apply write_cell_short, Hc ].
Qed.

Lemma run_short fuel : forall m,
  fits_short m -> fits_short (machine_of (run fuel m)).
Proof.
  induction fuel as [|fuel IH]; simpl; intros m H; [exact H|].
  pose proof (step_short m H) as Hs.
  destruct (step m) as [m1|m1|i m1|m1]; simpl in *; try exact Hs.
  apply IH, Hs.
Qed.

End Shorts.

(** X27. On any image [parse] has left, at every point of every run, each
    cell and the accumulator hold a value of a [short]: the sums and
    differences of ADD and SUB stay far inside [int], and STA stores the
    accumulator without losing anything. *)
Theorem run_fits_short (lines : list string) (ok : bool) (st : asm)
    (fuel : nat) (input : list Z) :
  parse lines = Some (ok, st) ->
  fits_short (machine_of (execute fuel (glob st) input)) /\
  to_short (acc (machine_of (execute fuel (glob st) input))) =
    acc (machine_of (execute fuel (glob st) input)).
Proof.
  intros Hp.
  assert (H : fits_short (machine_of (execute fuel (glob st) input))).
  { unfold execute. apply run_short. split; simpl.
    - apply (parse_short _ _ _ Hp).
    - unfold short_range. lia. }
  split; [exact H|]. apply wrap16_range. apply H.
Qed.

Lemma run_fits_short_witness :
  match parse ["INP"; "SUB k"; "STA k"; "HLT"; "k DAT 999"]%string with
  | Some (ok, st) =>
      fits_short (machine_of (execute 4 (glob st) [-999]))
  | None => False
  end.
Proof.
  destruct (parse ["INP"; "SUB k"; "STA k"; "HLT"; "k DAT 999"]%string)
    as [[ok st]|] eqn:E; [|vm_compute in E; discriminate].
  exact (proj1 (run_fits_short _ ok st 4 [-999] E)).
Defined.

(** X11. DAT reads its parameter with [atoi]: when it starts with decimal
    digits (of a number an [int] can hold), what follows them is ignored;
    the number is stored when it is at most 999 and reported, without a
    word emitted, when it is above.  With a '-' in front the opposite
    number is stored: no negative number is turned down. *)
Theorem dat_reads_leading_digits (line : Z) (d rest : string) (st : asm) :
  all_digits d = true -> d <> EmptyString -> decimal d <= INT_MAX ->
  match rest with
  | EmptyString => True
  | String c _ => is_digit c = false
  end ->
  g_pc (glob st) < program_size ->
  emit line MNEMONIC_DAT (d +:+ rest) st =
    Some (if 999 <? decimal d then report line DatOutOfRange st
          else store_word (decimal d) st) /\
  emit line MNEMONIC_DAT (String "-" (d +:+ rest)) st =
    Some (store_word (- decimal d) st).
Proof.
  intros Hd Hne Hmax Hrest Hpc.
  destruct (atoi_reads_leading_digits d rest Hd Hne Hmax Hrest)
    as (Hpos & Hneg & _).
  pose proof (decimal_nonneg d Hd) as H0.
  unfold emit.
  destruct (Z.leb_spec program_size (g_pc (glob st))); [lia|].
  unfold MNEMONIC_DAT, emit_dat. cbv iota beta. split.
  - assert (He : empty (d +:+ rest) = false)
      by (destruct d; [congruence | reflexivity]).
    rewrite He, Hpos. reflexivity.
  - change (empty (String "-" (d +:+ rest))) with false. cbv iota.
    rewrite Hneg. destruct (Z.ltb_spec 999 (- decimal d)); [lia | reflexivity].
Qed.

Lemma dat_reads_leading_digits_witness :
  all_digits "12" = true /\ decimal "12" <= INT_MAX /\
  g_pc (glob initial_asm) < program_size /\
  emit 1 MNEMONIC_DAT ("12" +:+ "abc") initial_asm =
    Some (store_word 12 initial_asm) /\
  emit 1 MNEMONIC_DAT (String "-" ("12" +:+ "abc")) initial_asm =
    Some (store_word (-12) initial_asm).
Proof.
  assert (Hmax : decimal "12" <= INT_MAX) by (vm_compute; discriminate).
  assert (Hne : "12"%string <> EmptyString) by discriminate.
  assert (Hpc : g_pc (glob initial_asm) < program_size) by reflexivity.
  destruct (dat_reads_leading_digits 1 "12" "abc" initial_asm
              eq_refl Hne Hmax eq_refl Hpc) as [H1 H2].
  split; [reflexivity|]. split; [exact Hmax|]. split; [exact Hpc|].
  split; [exact H1 | exact H2].
Defined.

(** ** Operands and sums outside the expected ranges *)

(** C4, on the code: an operand of pass 2 is accumulated in an [int], and
    a number with more digits than an [int] holds wraps around before the
    test [number > 999].  [ADD 3000000000] is accepted without any message
    and changes the cell to 24164; [ADD 4294967196] is accepted and turns
    the cell into 0, a HLT; [ADD 4294967295] ends the scan at -1 and is
    looked up as a label. *)
Theorem large_operand_accepted :
  match parse ["ADD 3000000000"]%string with
  | Some (ok, st) =>
      all_digits "3000000000" = true /\ 999 < decimal "3000000000" /\
      ok = true /\ errcount st = 0 /\ cerr st = [] /\
      read_cell 0 (g_program (glob st)) = Some 24164
  | None => False
  end /\
  match parse ["ADD 4294967196"]%string with
  | Some (ok, st) =>
      all_digits "4294967196" = true /\ 999 < decimal "4294967196" /\
      ok = true /\ errcount st = 0 /\ cerr st = [] /\
      read_cell 0 (g_program (glob st)) = Some 0
  | None => False
  end /\
  match parse ["ADD 4294967295"]%string with
  | Some (ok, st) =>
      all_digits "4294967295" = true /\ 999 < decimal "4294967295" /\
      cerr st = [Diagnostic 1 (LabelNotFound "4294967295")]
  | None => False
  end.
Proof.
  split; [|split].
  - destruct (parse ["ADD 3000000000"]%string) as [[ok st]|] eqn:E;
      vm_compute in E; [|discriminate].
    injection E as <- <-. repeat split; reflexivity.
  - destruct (parse ["ADD 4294967196"]%string) as [[ok st]|] eqn:E;
      vm_compute in E; [|discriminate].
    injection E as <- <-. repeat split; reflexivity.
  - destruct (parse ["ADD 4294967295"]%string) as [[ok st]|] eqn:E;
      vm_compute in E; [|discriminate].
    injection E as <- <-. repeat split; reflexivity.
Qed.

(** C6, on the code: ADD on a negative sum keeps it negative.  After a SUB
    that borrows the accumulator is -1, and ADD of a cell holding 0 leaves
    -1 where the claim has (-1 + 0) mod 1000 = 999; after INP of -5, ADD of
    a cell holding 3 leaves -2 where the claim has 998.  The overflow flag
    is clear in both runs, as the claim has it. *)
Theorem add_on_negative_accumulator :
  match lmc 4 ["SUB one"; "ADD zero"; "OUT"; "HLT";
               "one DAT 1"; "zero DAT 0"]%string [] with
  | Executed (Halt m) =>
      acc m = -1 /\ overflow m = false /\ cout m = [-1] /\
      (-1 + 0) mod 1000 = 999
  | _ => False
  end /\
  match lmc 4 ["INP"; "ADD three"; "OUT"; "HLT"; "three DAT 3"]%string [-5] with
  | Executed (Halt m) =>
      acc m = -2 /\ overflow m = false /\ cout m = [-2] /\
      (-5 + 3) mod 1000 = 998
  | _ => False
  end.
Proof. split; vm_compute; repeat split; reflexivity. Qed.
